(** * Windowed multipole cross sections (scripts/WMP.py)

    A shallow embedding of the evaluation core of [WMP.py]: the polynomial
    broadening recurrence [_broaden_wmp_polynomials], the Faddeeva dispatch
    [_faddeeva], the loader [WindowedMultipole.from_hdf5] with the property
    setters it goes through, and the evaluator [WindowedMultipole._evaluate].

    Modelling choices.
    - Python floats are real numbers ([R]); rounding, overflow, signed zeros
      and NaN are outside the model (one remark on rounding uses binary64,
      in [Binary64]).  [math.sqrt] of a negative number and a float division
      by zero raise, as they do in Python.
    - Python integers are [Z]; an index into a numpy array may be negative
      and then counts from the end.
    - numpy arrays are a shape and a row-major buffer.
    - An exception is a value of [exn]; every function that can raise
      returns a [result].
    - [math.erf] and [scipy.special.wofz] are not defined in the repository;
      they are parameters of the development. *)

From Stdlib Require Import Reals Lra Lia ZArith.
From Stdlib Require Floats.
From stdpp Require Import base option list gmap strings.

Open Scope R_scope.

(** ** Python runtime: exceptions *)

Inductive exn : Set :=
| TypeError
| ValueError
| KeyError
| IndexError
| ZeroDivisionError
| OverflowError
| OSError.

Inductive result (A : Type) : Type :=
| Ok (a : A)
| Raise (e : exn).

Arguments Ok {A} a.
Arguments Raise {A} e.

#[global] Instance result_ret : MRet result := λ A a, Ok a.
#[global] Instance result_bind : MBind result := λ A B f m,
  match m with
  | Ok a => f a
  | Raise e => Raise e
  end.

(** [for x in l: s = body(s, x)] *)
Fixpoint for_each {A S : Type} (body : S → A → result S) (l : list A) (s : S)
  : result S :=
  match l with
  | [] => Ok s
  | x :: l' => s' ← body s x; for_each body l' s'
  end.

(** [range(a, b)] *)
Definition py_range (a b : Z) : list Z := seqZ a (b - a).

(** [math.sqrt]: a negative argument is a "math domain error". *)
Definition py_sqrt (x : R) : result R :=
  if Rlt_dec x 0 then Raise ValueError else Ok (sqrt x).

(** Float division [a / b]. *)
Definition py_div (a b : R) : result R :=
  if Req_dec_T b 0 then Raise ZeroDivisionError else Ok (a / b).

(** ** Complex numbers *)

Definition C : Type := R * R.

Definition Cre (z : C) : R := fst z.
Definition Cim (z : C) : R := snd z.
Definition RtoC (x : R) : C := (x, 0).
Definition Cj : C := (0, 1).
Definition Csub (a b : C) : C := (Cre a - Cre b, Cim a - Cim b).
Definition Copp (a : C) : C := (- Cre a, - Cim a).
Definition Cmul (a b : C) : C :=
  (Cre a * Cre b - Cim a * Cim b, Cre a * Cim b + Cim a * Cre b).
Definition Cconj (a : C) : C := (Cre a, - Cim a).
Definition Cscal (a : C) (x : R) : C := (Cre a * x, Cim a * x).
Definition Cnorm2 (a : C) : R := Cre a * Cre a + Cim a * Cim a.
(** numpy complex division does not raise; at a zero divisor the value is
    left to the totalised real division. *)
Definition Cdiv (a b : C) : C :=
  ((Cre a * Cre b + Cim a * Cim b) / Cnorm2 b,
   (Cim a * Cre b - Cre a * Cim b) / Cnorm2 b).

(** [math.atan2] *)
Definition atan2 (y x : R) : R :=
  if Rlt_dec 0 x then atan (y / x)
  else if Rlt_dec x 0 then
    if Rle_dec 0 y then atan (y / x) + PI else atan (y / x) - PI
  else if Rlt_dec 0 y then PI / 2
  else if Rlt_dec y 0 then - PI / 2
  else 0.

(** [np.angle(z)] is [arctan2(z.imag, z.real)]. *)
Definition np_angle (z : C) : R := atan2 (Cim z) (Cre z).

(** ** numpy arrays *)

Record ndarray (A : Type) : Type := NDArray {
  shape : list nat;
  buffer : list A
}.

Arguments NDArray {A} shape buffer.
Arguments shape {A} _.
Arguments buffer {A} _.

Definition size_of (sh : list nat) : nat := foldr Nat.mul 1%nat sh.

(** The invariant numpy keeps: the buffer has one cell per index tuple. *)
Definition wf_ndarray {A : Type} (a : ndarray A) : Prop :=
  length (buffer a) = size_of (shape a).

(** One index against one axis of length [n]: [-n <= i < n], a negative
    index counting from the end. *)
Definition norm_index (n : nat) (i : Z) : result nat :=
  if decide (0 ≤ i < Z.of_nat n)%Z then Ok (Z.to_nat i)
  else if decide (- Z.of_nat n ≤ i < 0)%Z then Ok (Z.to_nat (Z.of_nat n + i))
  else Raise IndexError.

(** Row-major offset of a full index tuple. *)
Fixpoint offset (sh : list nat) (idx : list Z) (acc : nat) : result nat :=
  match sh, idx with
  | [], [] => Ok acc
  | n :: sh', i :: idx' =>
      k ← norm_index n i; offset sh' idx' (acc * n + k)%nat
  | _, _ => Raise IndexError
  end.

(** [a[i, j, ...]] with as many indices as axes. *)
Definition getitem {A : Type} (a : ndarray A) (idx : list Z) : result A :=
  o ← offset (shape a) idx 0;
  match buffer a !! o with
  | Some x => Ok x
  | None => Raise IndexError
  end.

(** [a[i, j, ...] = v] *)
Definition setitem {A : Type} (a : ndarray A) (idx : list Z) (v : A)
  : result (ndarray A) :=
  o ← offset (shape a) idx 0;
  if decide (o < length (buffer a))%nat
  then Ok (NDArray (shape a) (<[o := v]> (buffer a)))
  else Raise IndexError.

(** [a.shape[k]] *)
Definition shape_at {A : Type} (a : ndarray A) (k : nat) : result nat :=
  match shape a !! k with
  | Some n => Ok n
  | None => Raise IndexError
  end.

(** [np.zeros(n)] *)
Definition np_zeros (n : Z) : result (ndarray R) :=
  if decide (n < 0)%Z then Raise ValueError
  else Ok (NDArray [Z.to_nat n] (replicate (Z.to_nat n) 0)).

(** ** Module constants *)

Definition WMP_VERSION : string := "v1.0".

Definition K_BOLTZMANN : R := 8.6173303e-5.

Definition _MP_EA : Z := 0.
Definition _MP_RT : Z := 1.
Definition _MP_RA : Z := 2.
Definition _MP_RF : Z := 3.

Definition _FIT_T : Z := 0.
Definition _FIT_A : Z := 1.
Definition _FIT_F : Z := 2.

(** ** The numerical kernels *)

Section Kernels.

Context (erf : R → R) (wofz : C → C).

(** [_faddeeva(z)] *)
Definition _faddeeva (z : C) : C :=
  if Rlt_dec 0 (np_angle z) then wofz z
  else Copp (Cconj (wofz (Cconj z))).

(** One turn of the loop of [_broaden_wmp_polynomials]. *)
Definition broaden_step (E half_inv_dopp2 quarter_inv_dopp4 : R)
    (factors : ndarray R) (i : Z) : result (ndarray R) :=
  if decide (i ≠ 1%Z) then
    a ← getitem factors [(i - 2)%Z];
    b ← getitem factors [i];
    setitem factors [(i + 2)%Z]
      (- a * (IZR i - 1) * IZR i * quarter_inv_dopp4
       + b * (E + (1 + 2 * IZR i) * half_inv_dopp2))
  else
    b ← getitem factors [i];
    setitem factors [(i + 2)%Z] (b * (E + (1 + 2 * IZR i) * half_inv_dopp2)).

(** [_broaden_wmp_polynomials(E, dopp, n)] *)
Definition _broaden_wmp_polynomials (E dopp : R) (n : Z)
  : result (ndarray R) :=
  sqrtE ← py_sqrt E;
  let beta := sqrtE * dopp in
  half_inv_dopp2 ← py_div 0.5 (dopp ^ 2);
  let quarter_inv_dopp4 := half_inv_dopp2 ^ 2 in
  let erf_beta := if Rlt_dec 6 beta then 1 else erf beta in
  let exp_m_beta2 := if Rlt_dec 6 beta then 0 else exp (- beta ^ 2) in
  factors ← np_zeros n;
  f0 ← py_div erf_beta E;
  factors ← setitem factors [0%Z] f0;
  f1 ← py_div 1 sqrtE;
  factors ← setitem factors [1%Z] f1;
  f0' ← getitem factors [0%Z];
  tail ← py_div exp_m_beta2 (beta * sqrt PI);
  factors ← setitem factors [2%Z] (f0' * (half_inv_dopp2 + E) + tail);
  for_each (broaden_step E half_inv_dopp2 quarter_inv_dopp4)
           (py_range 1 (n - 2)) factors.

End Kernels.

(** ** The broadening recurrence, as an equation *)

(** The equation the loop establishes at index [i] of the factors [f],
    with [h] for [half_inv_dopp2]. *)
Definition recurrence_at (E h : R) (f : list R) (i : nat) : Prop :=
  ∃ fi fi2, f !! i = Some fi ∧ f !! (i + 2)%nat = Some fi2 ∧
    if decide (i = 1%nat) then fi2 = fi * (E + (1 + 2 * INR i) * h)
    else ∃ fim2, f !! (i - 2)%nat = Some fim2 ∧
         fi2 = - fim2 * (INR i - 1) * INR i * h ^ 2
               + fi * (E + (1 + 2 * INR i) * h).

(** The state of the loop of [_broaden_wmp_polynomials] before turn [i]. *)
Definition broaden_inv (E h : R) (n : nat) (v0 v1 v2 : R) (i : Z)
    (factors : ndarray R) : Prop :=
  shape factors = [n] ∧ length (buffer factors) = n ∧
  buffer factors !! 0%nat = Some v0 ∧
  buffer factors !! 1%nat = Some v1 ∧
  buffer factors !! 2%nat = Some v2 ∧
  ∀ k : nat, (1 ≤ Z.of_nat k < i)%Z → recurrence_at E h (buffer factors) k.

(** ** The table *)

(** The attributes of a [WindowedMultipole] object once every setter has
    run: the setters fix the scalar kind and the element type of each array
    (the shapes are checked by [from_hdf5], see [valid_table]). *)
Record WindowedMultipole : Type := {
  spacing : R;
  sqrtAWR : R;
  start_E : R;
  end_E : R;
  data : ndarray C;
  w_start : ndarray Z;
  w_end : ndarray Z;
  broaden_poly : ndarray bool;
  curvefit : ndarray R
}.

(** [self.fit_order]: [self.curvefit.shape[1] - 1] *)
Definition fit_order (self : WindowedMultipole) : result Z :=
  n ← shape_at (curvefit self) 1; Ok (Z.of_nat n - 1)%Z.

(** [self.fissionable]: [self.data.shape[1] == 4] *)
Definition fissionable (self : WindowedMultipole) : result bool :=
  n ← shape_at (data self) 1; Ok (bool_decide (n = 4%nat)).

(** ** Values read from an HDF5 file *)

(** What [dataset.value] can be: a numpy scalar or a numpy array, of one of
    the four numeric kinds.  The arrays [NpArrB], [NpArrI], [NpArrF] and
    [NpArrC] have numpy's default dtype of their kind ([bool_], [int64],
    [float64], [complex128]), the only ones [np.issubdtype(dtype, bool)],
    [(dtype, int)], [(dtype, float)] and [(dtype, complex)] accept;
    [NpArrInt] is an integer array of another dtype ([int8], [int16],
    [int32], the unsigned ones), such as the [int8] array
    [export_to_hdf5] writes. *)
Inductive npvalue : Type :=
| NpBool (b : bool)
| NpInt (z : Z)
| NpFloat (x : R)
| NpComplex (c : C)
| NpArrB (a : ndarray bool)
| NpArrI (a : ndarray Z)
| NpArrF (a : ndarray R)
| NpArrC (a : ndarray C)
| NpArrInt (a : ndarray Z).

(** The shape of an array, [None] for a scalar ([isinstance(v, np.ndarray)]
    is false). *)
Definition np_shape (v : npvalue) : option (list nat) :=
  match v with
  | NpArrB a => Some (shape a)
  | NpArrI a => Some (shape a)
  | NpArrF a => Some (shape a)
  | NpArrC a => Some (shape a)
  | NpArrInt a => Some (shape a)
  | _ => None
  end.

Definition wf_npvalue (v : npvalue) : Prop :=
  match v with
  | NpArrB a => wf_ndarray a
  | NpArrI a => wf_ndarray a
  | NpArrF a => wf_ndarray a
  | NpArrC a => wf_ndarray a
  | NpArrInt a => wf_ndarray a
  | _ => True
  end.

(** Every array stored in a group is a numpy array. *)
Definition wf_group (group : gmap string npvalue) : Prop :=
  map_Forall (λ _ v, wf_npvalue v) group.

Definition amap {A B : Type} (f : A → B) (a : ndarray A) : ndarray B :=
  NDArray (shape a) (f <$> buffer a).

Definition Rtruth (x : R) : bool := if Req_dec_T x 0 then false else true.
Definition Ctruth (c : C) : bool := Rtruth (Cre c) || Rtruth (Cim c).
Definition Ztruth (z : Z) : bool := negb (z =? 0)%Z.

(** [v.astype(np.bool)] *)
Definition astype_bool (v : npvalue) : npvalue :=
  match v with
  | NpBool b => NpBool b
  | NpInt z => NpBool (Ztruth z)
  | NpFloat x => NpBool (Rtruth x)
  | NpComplex c => NpBool (Ctruth c)
  | NpArrB a => NpArrB a
  | NpArrI a => NpArrB (amap Ztruth a)
  | NpArrF a => NpArrB (amap Rtruth a)
  | NpArrC a => NpArrB (amap Ctruth a)
  | NpArrInt a => NpArrB (amap Ztruth a)
  end.

(** ** Checkers and property setters *)

(** [check_type(name, value, Real)]: numpy's integer and floating scalars
    are registered as [numbers.Real]; the value is returned as a real. *)
Definition check_type_Real (value : npvalue) : result R :=
  match value with
  | NpInt z => Ok (IZR z)
  | NpFloat x => Ok x
  | _ => Raise TypeError
  end.

(** [check_greater_than(name, value, minimum, equality)] *)
Definition check_greater_than (value minimum : R) (equality : bool)
  : result unit :=
  if equality then
    if Rlt_dec value minimum then Raise ValueError else Ok ()
  else
    if Rle_dec value minimum then Raise ValueError else Ok ().

(** [check_type(name, value, np.ndarray)], giving the shape. *)
Definition check_type_ndarray (value : npvalue) : result (list nat) :=
  match np_shape value with
  | Some sh => Ok sh
  | None => Raise TypeError
  end.

Definition set_spacing (v : npvalue) : result R :=
  x ← check_type_Real v;
  _ ← check_greater_than x 0 false;
  Ok x.

Definition set_sqrtAWR (v : npvalue) : result R :=
  x ← check_type_Real v;
  _ ← check_greater_than x 0 false;
  Ok x.

Definition set_start_E (v : npvalue) : result R :=
  x ← check_type_Real v;
  _ ← check_greater_than x 0 true;
  Ok x.

Definition set_end_E (v : npvalue) : result R :=
  x ← check_type_Real v;
  _ ← check_greater_than x 0 false;
  Ok x.

Definition set_data (v : npvalue) : result (ndarray C) :=
  sh ← check_type_ndarray v;
  if decide (length sh ≠ 2%nat) then Raise ValueError
  else if decide (sh !! 1%nat = Some 3%nat ∨ sh !! 1%nat = Some 4%nat) then
    match v with
    | NpArrC a => Ok a
    | _ => Raise TypeError
    end
  else Raise ValueError.

Definition set_w_start (v : npvalue) : result (ndarray Z) :=
  sh ← check_type_ndarray v;
  if decide (length sh ≠ 1%nat) then Raise ValueError
  else match v with
       | NpArrI a => Ok a
       | _ => Raise TypeError
       end.

Definition set_w_end (v : npvalue) : result (ndarray Z) :=
  sh ← check_type_ndarray v;
  if decide (length sh ≠ 1%nat) then Raise ValueError
  else match v with
       | NpArrI a => Ok a
       | _ => Raise TypeError
       end.

Definition set_broaden_poly (v : npvalue) : result (ndarray bool) :=
  sh ← check_type_ndarray v;
  if decide (length sh ≠ 1%nat) then Raise ValueError
  else match v with
       | NpArrB a => Ok a
       | _ => Raise TypeError
       end.

Definition set_curvefit (v : npvalue) : result (ndarray R) :=
  sh ← check_type_ndarray v;
  if decide (length sh ≠ 3%nat) then Raise ValueError
  else if decide (sh !! 2%nat = Some 2%nat ∨ sh !! 2%nat = Some 3%nat) then
    match v with
    | NpArrF a => Ok a
    | _ => Raise TypeError
    end
  else Raise ValueError.

(** ** Loading: [WindowedMultipole.from_hdf5] *)

(** The version dataset: a bytes scalar, or an array of bytes (what
    [export_to_hdf5] writes, with one entry). *)
Inductive version_data : Type :=
| VBytes (s : string)
| VBytesArray (l : list string).

Record h5file : Type := H5File {
  version : option version_data;
  nuclide : option (gmap string npvalue)
}.

(** The argument of [from_hdf5]: an open [h5py.Group], or the name of a
    file. *)
Inductive group_or_filename : Type :=
| Group (group : gmap string npvalue)
| Filename (path : string).

(** [group[name].value] *)
Definition dataset (group : gmap string npvalue) (name : string)
  : result npvalue :=
  match group !! name with
  | Some v => Ok v
  | None => Raise KeyError
  end.

(** [h5file['version'].value.decode()], and on [AttributeError] (the value
    is an array) [h5file['version'].value[0].decode()]. *)
Definition read_version (f : h5file) : result string :=
  match version f with
  | None => Raise KeyError
  | Some (VBytes s) => Ok s
  | Some (VBytesArray []) => Raise IndexError
  | Some (VBytesArray (s :: _)) => Ok s
  end.

(** [a.shape[0] != b.shape[0]] *)
Definition shape0_differs {A B : Type} (a : ndarray A) (b : ndarray B)
  : result bool :=
  n ← shape_at a 0; m ← shape_at b 0; Ok (bool_decide (n ≠ m)).

(** The first statement of [from_hdf5]: a group is taken as it is, a file
    is opened, its version compared with [WMP_VERSION], and its group
    ['nuclide'] taken. *)
Definition open_group (fs : gmap string h5file) (arg : group_or_filename)
  : result (gmap string npvalue) :=
  match arg with
  | Group group => Ok group
  | Filename path =>
      match fs !! path with
      | None => Raise OSError
      | Some h5 =>
          v ← read_version h5;
          if decide (v ≠ WMP_VERSION) then Raise ValueError
          else match nuclide h5 with
               | Some group => Ok group
               | None => Raise KeyError
               end
      end
  end.

Definition from_hdf5 (fs : gmap string h5file) (arg : group_or_filename)
  : result WindowedMultipole :=
  group ← open_group fs arg;
  out_spacing ← dataset group "spacing" ≫= set_spacing;
  out_sqrtAWR ← dataset group "sqrtAWR" ≫= set_sqrtAWR;
  out_start_E ← dataset group "start_E" ≫= set_start_E;
  out_end_E ← dataset group "end_E" ≫= set_end_E;
  out_data ← dataset group "data" ≫= set_data;
  out_w_start ← dataset group "w_start" ≫= set_w_start;
  out_w_end ← dataset group "w_end" ≫= set_w_end;
  d ← shape0_differs out_w_end out_w_start;
  if d : bool then Raise ValueError else
  out_broaden_poly ←
    (v ← dataset group "broaden_poly"; set_broaden_poly (astype_bool v));
  d ← shape0_differs out_broaden_poly out_w_start;
  if d : bool then Raise ValueError else
  out_curvefit ← dataset group "curvefit" ≫= set_curvefit;
  d ← shape0_differs out_curvefit out_w_start;
  if d : bool then Raise ValueError else
  let out := {| spacing := out_spacing; sqrtAWR := out_sqrtAWR;
                start_E := out_start_E; end_E := out_end_E;
                data := out_data; w_start := out_w_start;
                w_end := out_w_end; broaden_poly := out_broaden_poly;
                curvefit := out_curvefit |} in
  order ← fit_order out;
  if decide (order < 2)%Z then Raise ValueError else Ok out.

(** ** Evaluation: [WindowedMultipole._evaluate] *)

(** The three running sums [sig_t, sig_a, sig_f]. *)
Definition xs : Type := R * R * R.

Section Evaluate.

Context (erf : R → R) (wofz : C → C).

(** Body of the loop over [i_poly] of the broadened curvefit. *)
Definition broadened_term (self : WindowedMultipole) (i_window : Z)
    (broadened_polynomials : ndarray R) (sig : xs) (i_poly : Z) : result xs :=
  let '(sig_t, sig_a, sig_f) := sig in
  ct ← getitem (curvefit self) [i_window; i_poly; _FIT_T];
  bt ← getitem broadened_polynomials [i_poly];
  let sig_t := sig_t + ct * bt in
  ca ← getitem (curvefit self) [i_window; i_poly; _FIT_A];
  ba ← getitem broadened_polynomials [i_poly];
  let sig_a := sig_a + ca * ba in
  fis ← fissionable self;
  if fis : bool then
    cf ← getitem (curvefit self) [i_window; i_poly; _FIT_F];
    bf ← getitem broadened_polynomials [i_poly];
    Ok (sig_t, sig_a, sig_f + cf * bf)
  else Ok (sig_t, sig_a, sig_f).

(** Body of the loop over [i_poly] of the plain curvefit; the state also
    carries [temp]. *)
Definition plain_term (self : WindowedMultipole) (i_window : Z) (sqrtE : R)
    (st : xs * R) (i_poly : Z) : result (xs * R) :=
  let '(sig_t, sig_a, sig_f, temp) := st in
  ct ← getitem (curvefit self) [i_window; i_poly; _FIT_T];
  let sig_t := sig_t + ct * temp in
  ca ← getitem (curvefit self) [i_window; i_poly; _FIT_A];
  let sig_a := sig_a + ca * temp in
  fis ← fissionable self;
  sig_f ← (if fis : bool then
             cf ← getitem (curvefit self) [i_window; i_poly; _FIT_F];
             Ok (sig_f + cf * temp)
           else Ok sig_f);
  Ok (sig_t, sig_a, sig_f, temp * sqrtE).

(** Adds [(residue * c).real] for the three channels of pole [i_pole]. *)
Definition add_pole (self : WindowedMultipole) (c : C) (sig : xs) (i_pole : Z)
  : result xs :=
  let '(sig_t, sig_a, sig_f) := sig in
  rt ← getitem (data self) [i_pole; _MP_RT];
  let sig_t := sig_t + Cre (Cmul rt c) in
  ra ← getitem (data self) [i_pole; _MP_RA];
  let sig_a := sig_a + Cre (Cmul ra c) in
  fis ← fissionable self;
  if fis : bool then
    rf ← getitem (data self) [i_pole; _MP_RF];
    Ok (sig_t, sig_a, sig_f + Cre (Cmul rf c))
  else Ok (sig_t, sig_a, sig_f).

(** Body of the pole loop at 0 K (asymptotic form). *)
Definition pole_term_0K (self : WindowedMultipole) (E sqrtE : R)
    (sig : xs) (i_pole : Z) : result xs :=
  ea ← getitem (data self) [i_pole; _MP_EA];
  let psi_chi := Cdiv (Copp Cj) (Csub ea (RtoC sqrtE)) in
  let c_temp := Cdiv psi_chi (RtoC E) in
  add_pole self c_temp sig i_pole.

(** Body of the pole loop at temperature (Faddeeva form). *)
Definition pole_term_T (self : WindowedMultipole) (sqrtE invE dopp : R)
    (sig : xs) (i_pole : Z) : result xs :=
  ea ← getitem (data self) [i_pole; _MP_EA];
  let Z := Cscal (Csub (RtoC sqrtE) ea) dopp in
  let w_val := Cscal (Cscal (Cscal (_faddeeva wofz Z) dopp) invE) (sqrt PI) in
  add_pole self w_val sig i_pole.

(** The window an energy falls in:
    [int(np.floor((sqrtE - sqrt(self.start_E)) / self.spacing))]. *)
Definition locate (self : WindowedMultipole) (sqrtE : R) : result Z :=
  s ← py_sqrt (start_E self);
  q ← py_div (sqrtE - s) (spacing self);
  Ok (Zfloor q).

(** The curvefit part of [_evaluate]. *)
Definition curvefit_sum (self : WindowedMultipole) (E sqrtkT sqrtE invE : R)
    (i_window : Z) : result xs :=
  broaden ← (if Req_dec_T sqrtkT 0 then Ok false
             else getitem (broaden_poly self) [i_window]);
  if broaden : bool then
    dopp ← py_div (sqrtAWR self) sqrtkT;
    n ← fit_order self;
    broadened_polynomials ← _broaden_wmp_polynomials erf E dopp (n + 1);
    n ← fit_order self;
    for_each (broadened_term self i_window broadened_polynomials)
             (py_range 0 (n + 1)) (0, 0, 0)
  else
    n ← fit_order self;
    st ← for_each (plain_term self i_window sqrtE)
                  (py_range 0 (n + 1)) (0, 0, 0, invE);
    Ok (fst st).

(** The pole part of [_evaluate]. *)
Definition pole_sum (self : WindowedMultipole) (E sqrtkT sqrtE invE : R)
    (startw endw : Z) (sig : xs) : result xs :=
  if Req_dec_T sqrtkT 0 then
    for_each (pole_term_0K self E sqrtE) (py_range startw endw) sig
  else
    dopp ← py_div (sqrtAWR self) sqrtkT;
    for_each (pole_term_T self sqrtE invE dopp) (py_range startw endw) sig.

(** [self._evaluate(E, T)] *)
Definition _evaluate (self : WindowedMultipole) (E T : R) : result xs :=
  if Rlt_dec E (start_E self) then Ok (0, 0, 0)
  else if Rlt_dec (end_E self) E then Ok (0, 0, 0)
  else
    sqrtkT ← py_sqrt (K_BOLTZMANN * T);
    sqrtE ← py_sqrt E;
    invE ← py_div 1 E;
    i_window ← locate self sqrtE;
    ws ← getitem (w_start self) [i_window];
    let startw := (ws - 1)%Z in
    endw ← getitem (w_end self) [i_window];
    sig ← curvefit_sum self E sqrtkT sqrtE invE i_window;
    pole_sum self E sqrtkT sqrtE invE startw endw sig.

End Evaluate.

(** ** What [from_hdf5] establishes *)

(** The facts the setters and [from_hdf5] check before a table is
    returned. *)
Record valid_table (t : WindowedMultipole) : Prop := {
  valid_spacing : 0 < spacing t;
  valid_sqrtAWR : 0 < sqrtAWR t;
  valid_start_E : 0 <= start_E t;
  valid_end_E : 0 < end_E t;
  valid_data : ∃ n_poles n_cols,
    shape (data t) = [n_poles; n_cols] ∧ (n_cols = 3 ∨ n_cols = 4)%nat;
  valid_windows : ∃ n_windows n_terms n_channels,
    shape (w_start t) = [n_windows] ∧
    shape (w_end t) = [n_windows] ∧
    shape (broaden_poly t) = [n_windows] ∧
    shape (curvefit t) = [n_windows; n_terms; n_channels] ∧
    (n_channels = 2 ∨ n_channels = 3)%nat ∧ (3 ≤ n_terms)%nat
}.

(** The arrays of a table are numpy arrays. *)
Definition wf_table (t : WindowedMultipole) : Prop :=
  wf_ndarray (data t) ∧ wf_ndarray (w_start t) ∧ wf_ndarray (w_end t) ∧
  wf_ndarray (broaden_poly t) ∧ wf_ndarray (curvefit t).

(** Number of windows, of poles, of curvefit terms and channels, of pole
    columns. *)
Definition n_windows (t : WindowedMultipole) : nat :=
  default 0%nat (shape (w_start t) !! 0%nat).
Definition n_poles (t : WindowedMultipole) : nat :=
  default 0%nat (shape (data t) !! 0%nat).
Definition n_terms (t : WindowedMultipole) : nat :=
  default 0%nat (shape (curvefit t) !! 1%nat).
Definition n_channels (t : WindowedMultipole) : nat :=
  default 0%nat (shape (curvefit t) !! 2%nat).
Definition n_columns (t : WindowedMultipole) : nat :=
  default 0%nat (shape (data t) !! 1%nat).

(** The half-open pole range [[w_start[i] - 1, w_end[i])] of window [i] is
    contained in [[0, number of poles)]. *)
Definition pole_range_in_bounds (t : WindowedMultipole) (i : nat) : Prop :=
  ∀ ws we, buffer (w_start t) !! i = Some ws → buffer (w_end t) !! i = Some we →
    ∀ k, (ws - 1 ≤ k < we)%Z → (0 ≤ k < Z.of_nat (n_poles t))%Z.

(** The energies at which the evaluation of a loaded table goes through:
    outside [[start_E, end_E]]; or inside it and positive, in one of the
    windows the table has, the pole range of that window within the poles,
    and a fission curvefit channel present if the poles carry a fission
    residue. *)
Definition in_domain (t : WindowedMultipole) (E : R) : Prop :=
  (E < start_E t ∨ E > end_E t) ∨
  (start_E t <= E <= end_E t ∧ 0 < E ∧
   sqrt E - sqrt (start_E t) < INR (n_windows t) * spacing t ∧
   (∀ i, locate t (sqrt E) = Ok i → pole_range_in_bounds t (Z.to_nat i)) ∧
   (n_columns t = 4%nat → n_channels t = 3%nat)).

(** ** Sample tables *)

(** A non-fissionable table over [e0, 100] eV with one window, no pole, and
    a three-term curvefit: [a/E + b/sqrt(E) + c] for the total and
    [a'/E + b'/sqrt(E) + c'] for the absorption cross section. *)
Definition one_window_group (e0 sp a b c a' b' c' : R) : gmap string npvalue :=
  <["spacing" := NpFloat sp]> (
  <["sqrtAWR" := NpFloat 1]> (
  <["start_E" := NpFloat e0]> (
  <["end_E" := NpFloat 100]> (
  <["data" := NpArrC (NDArray [0; 3]%nat [])]> (
  <["w_start" := NpArrI (NDArray [1%nat] [1%Z])]> (
  <["w_end" := NpArrI (NDArray [1%nat] [0%Z])]> (
  <["broaden_poly" := NpArrI (NDArray [1%nat] [0%Z])]> (
  <["curvefit" := NpArrF (NDArray [1; 3; 2]%nat [a; a'; b; b'; c; c'])]>
  ∅)))))))).

Definition one_window_table (e0 sp a b c a' b' c' : R) : WindowedMultipole := {|
  spacing := sp; sqrtAWR := 1; start_E := e0; end_E := 100;
  data := NDArray [0; 3]%nat [];
  w_start := NDArray [1%nat] [1%Z];
  w_end := NDArray [1%nat] [0%Z];
  broaden_poly := NDArray [1%nat] [false];
  curvefit := NDArray [1; 3; 2]%nat [a; a'; b; b'; c; c']
|}.



(** One pole, and a window whose pole range is [0, 5). *)
Definition overrun_group : gmap string npvalue :=
  <["data" := NpArrC (NDArray [1; 3]%nat [(2, 1); (1, 0); (1, 0)])]> (
  <["w_end" := NpArrI (NDArray [1%nat] [5%Z])]> (
  one_window_group 1 9 1 2 3 4 5 6)).

Definition overrun_table : WindowedMultipole := {|
  spacing := 9; sqrtAWR := 1; start_E := 1; end_E := 100;
  data := NDArray [1; 3]%nat [(2, 1); (1, 0); (1, 0)];
  w_start := NDArray [1%nat] [1%Z];
  w_end := NDArray [1%nat] [5%Z];
  broaden_poly := NDArray [1%nat] [false];
  curvefit := NDArray [1; 3; 2]%nat [1; 4; 2; 5; 3; 6]
|}.

(** A file of another format version holding the one-window table. *)
Definition old_file : h5file :=
  H5File (Some (VBytesArray ["v0.9"%string]))
         (Some (one_window_group 1 9 1 2 3 4 5 6)).

Definition sample_fs : gmap string h5file := {[ "old.h5"%string := old_file ]}.

(** ** Rounding *)

Module Binary64.
Import Floats.

(** The total of the plain curvefit loop of [_evaluate] for a three-term
    fit [a, b, c], in binary64 arithmetic:
    [temp = invE], then [sig_t += coefficient * temp; temp *= sqrtE] three
    times. *)
Definition plain_total (a b c E : float) : float :=
  let sqrtE := PrimFloat.sqrt E in
  let invE := (1 / E)%float in
  let temp := invE in
  let sig_t := (0 + a * temp)%float in
  let temp := (temp * sqrtE)%float in
  let sig_t := (sig_t + b * temp)%float in
  let temp := (temp * sqrtE)%float in
  (sig_t + c * temp)%float.

(** [a/25 + b/5 + c] in binary64. *)
Definition expected_total (a b c : float) : float :=
  (a / 25 + b / 5 + c)%float.

(** The scenario at 25 eV with the fit [0, 3, 0]. *)
Definition scenario_total : float := plain_total 0 3 0 25.
Definition scenario_expected : float := expected_total 0 3 0.

(** *** The operations that decide an outcome, in binary64

    Decimal constants denote the nearest double, as they do in Python. *)

#[local] Set Warnings "-inexact-float".

Definition K_BOLTZMANN : float := 8.6173303e-5%float.

(** [math.sqrt(x)]: a "math domain error" when [x < 0]; [-0.0] and NaN are
    not less than 0 and pass. *)
Definition py_sqrt (x : float) : result float :=
  if (x <? 0)%float then Raise ValueError else Ok (PrimFloat.sqrt x).

(** [a / b] on Python floats: [b] is [0.0] or [-0.0]. *)
Definition py_div (a b : float) : result float :=
  if (b =? 0)%float then Raise ZeroDivisionError else Ok (a / b)%float.

(** [x ** 2] on a Python float, the square taken as the rounded product: a
    finite [x] whose square is not finite is "Numerical result out of
    range"; a square that underflows is [0.0]. *)
Definition py_pow2 (x : float) : result float :=
  let y := (x * x)%float in
  if is_infinity y && negb (is_infinity x) then Raise OverflowError
  else Ok y.

(** [int(np.floor(x))]: an infinity cannot be converted (OverflowError),
    nor a NaN (ValueError). *)
Definition int_floor (x : float) : result Z :=
  match Prim2SF x with
  | S754_zero _ => Ok 0%Z
  | S754_infinity _ => Raise OverflowError
  | S754_nan => Raise ValueError
  | S754_finite s m e =>
      let m := if s : bool then Z.neg m else Z.pos m in
      if (0 <=? e)%Z then Ok (m * 2 ^ e)%Z else Ok (m / 2 ^ (- e))%Z
  end.

(** [sqrtkT = sqrt(K_BOLTZMANN * T)] *)
Definition sqrtkT (T : float) : result float :=
  py_sqrt (K_BOLTZMANN * T)%float.

(** [i_window = int(np.floor((sqrtE - sqrt(self.start_E)) / self.spacing))]
    with [sqrtE = sqrt(E)]; [spacing] is a numpy scalar, positive in a
    table, and the division does not raise. *)
Definition locate (start_E spacing E : float) : result Z :=
  sqrtE ← py_sqrt E;
  s ← py_sqrt start_E;
  int_floor ((sqrtE - s) / spacing)%float.

(** [float(i)] for an index [i] of the loop. *)
Definition of_int (i : Z) : float := PrimFloat.of_uint63 (Uint63.of_Z i).

(** [np.zeros(n)] *)
Definition np_zeros (n : Z) : result (ndarray float) :=
  if decide (n < 0)%Z then Raise ValueError
  else Ok (NDArray [Z.to_nat n] (replicate (Z.to_nat n) 0%float)).

(** [sqrt(pi)] *)
Definition sqrt_pi : float := PrimFloat.sqrt 3.141592653589793%float.

Section Kernel.

(** [math.erf] and [math.exp]; [exp] is only applied to [-beta**2], where
    it does not overflow. *)
Context (erf exp : float → float).

(** One turn of the loop of [_broaden_wmp_polynomials]. *)
Definition broaden_step (E half_inv_dopp2 quarter_inv_dopp4 : float)
    (factors : ndarray float) (i : Z) : result (ndarray float) :=
  if decide (i ≠ 1%Z) then
    a ← getitem factors [(i - 2)%Z];
    b ← getitem factors [i];
    setitem factors [(i + 2)%Z]
      (- a * (of_int i - 1) * of_int i * quarter_inv_dopp4
       + b * (E + (1 + 2 * of_int i) * half_inv_dopp2))%float
  else
    b ← getitem factors [i];
    setitem factors [(i + 2)%Z]
      (b * (E + (1 + 2 * of_int i) * half_inv_dopp2))%float.

(** [_broaden_wmp_polynomials(E, dopp, n)] called with Python floats. *)
Definition _broaden_wmp_polynomials (E dopp : float) (n : Z)
  : result (ndarray float) :=
  sqrtE ← py_sqrt E;
  let beta := (sqrtE * dopp)%float in
  dopp2 ← py_pow2 dopp;
  half_inv_dopp2 ← py_div 0.5 dopp2;
  quarter_inv_dopp4 ← py_pow2 half_inv_dopp2;
  saturated ← (if (6 <? beta)%float then Ok (1, 0)%float
               else beta2 ← py_pow2 beta; Ok (erf beta, exp (- beta2)%float));
  let '(erf_beta, exp_m_beta2) := saturated in
  factors ← np_zeros n;
  f0 ← py_div erf_beta E;
  factors ← setitem factors [0%Z] f0;
  f1 ← py_div 1 sqrtE;
  factors ← setitem factors [1%Z] f1;
  f0' ← getitem factors [0%Z];
  tail ← py_div exp_m_beta2 (beta * sqrt_pi)%float;
  factors ← setitem factors [2%Z]
              (f0' * (half_inv_dopp2 + E) + tail)%float;
  for_each (broaden_step E half_inv_dopp2 quarter_inv_dopp4)
           (py_range 1 (n - 2)) factors.

End Kernel.

(** Stand-ins for [math.erf] and [math.exp] where a closed term is
    needed. *)
Definition erf0 : float → float := λ _, 0%float.
Definition exp0 : float → float := λ _, 1%float.

(** Inputs of the examples. *)
Definition minus_1e_320 : float := (-1e-320)%float.
Definition minus_zero : float := (-0)%float.
Definition f1 : float := 1%float.
Definition f1e200 : float := 1e200%float.
Definition f1e_200 : float := 1e-200%float.
Definition f1e_100 : float := 1e-100%float.

End Binary64.

(** Stand-ins for [math.erf] and [scipy.special.wofz] where a closed term
    is needed; no statement depends on their values. *)
Definition erf0 : R → R := λ _, 0.
Definition wofz0 : C → C := λ z, (exp (- (Cre z) ^ 2), 0).

(** ** Export: [WindowedMultipole.export_to_hdf5] *)

(** An element of [self.broaden_poly.astype(np.int8)]. *)
Definition bool_to_int8 (b : bool) : Z := if b then 1%Z else 0%Z.

(** The group ['nuclide'] that [export_to_hdf5] writes, dataset after
    dataset.  A table holds its four scalars as reals, so they are written
    as floating-point scalars. *)
Definition export_group (self : WindowedMultipole) : gmap string npvalue :=
  <["curvefit" := NpArrF (curvefit self)]> (
  <["broaden_poly" := NpArrInt (amap bool_to_int8 (broaden_poly self))]> (
  <["w_end" := NpArrI (w_end self)]> (
  <["w_start" := NpArrI (w_start self)]> (
  <["data" := NpArrC (data self)]> (
  <["end_E" := NpFloat (end_E self)]> (
  <["start_E" := NpFloat (start_E self)]> (
  <["sqrtAWR" := NpFloat (sqrtAWR self)]> (
  <["spacing" := NpFloat (spacing self)]> ∅)))))))).

(** [self.export_to_hdf5(path)]: the file at [path] is created or replaced;
    it holds the version, as an array of one entry, and the group. *)
Definition export_to_hdf5 (self : WindowedMultipole)
    (fs : gmap string h5file) (path : string) : gmap string h5file :=
  <[path := H5File (Some (VBytesArray [WMP_VERSION]))
                   (Some (export_group self))]> fs.

(** What a group must hold for [from_hdf5] to return the table [t]: the
    four scalars as integer or floating-point scalars, the arrays of [t]
    with their element kinds ([broaden_poly] of any kind, read as
    booleans), and the checks of [valid_table]. *)
Record loadable (group : gmap string npvalue) (t : WindowedMultipole)
  : Prop := {
  load_spacing : ∃ v, group !! "spacing" = Some v ∧
                      check_type_Real v = Ok (spacing t);
  load_sqrtAWR : ∃ v, group !! "sqrtAWR" = Some v ∧
                      check_type_Real v = Ok (sqrtAWR t);
  load_start_E : ∃ v, group !! "start_E" = Some v ∧
                      check_type_Real v = Ok (start_E t);
  load_end_E : ∃ v, group !! "end_E" = Some v ∧
                    check_type_Real v = Ok (end_E t);
  load_data : group !! "data" = Some (NpArrC (data t));
  load_w_start : group !! "w_start" = Some (NpArrI (w_start t));
  load_w_end : group !! "w_end" = Some (NpArrI (w_end t));
  load_broaden_poly : ∃ v, group !! "broaden_poly" = Some v ∧
                           astype_bool v = NpArrB (broaden_poly t);
  load_curvefit : group !! "curvefit" = Some (NpArrF (curvefit t));
  load_valid : valid_table t
}.

(** The names of the datasets [from_hdf5] reads. *)
Definition dataset_names : list string :=
  ["spacing"; "sqrtAWR"; "start_E"; "end_E"; "data"; "w_start"; "w_end";
   "broaden_poly"; "curvefit"].

(** ** Objects: [__init__], the property setters and getters *)

(** The nine properties that have a setter. *)
Inductive property : Set :=
| p_spacing | p_sqrtAWR | p_start_E | p_end_E | p_data | p_w_start | p_w_end
| p_broaden_poly | p_curvefit.

Definition properties : list property :=
  [p_spacing; p_sqrtAWR; p_start_E; p_end_E; p_data; p_w_start; p_w_end;
   p_broaden_poly; p_curvefit].

(** The attribute behind a property. *)
Definition attribute (p : property) : string :=
  match p with
  | p_spacing => "_spacing"
  | p_sqrtAWR => "_sqrtAWR"
  | p_start_E => "_start_E"
  | p_end_E => "_end_E"
  | p_data => "_data"
  | p_w_start => "_w_start"
  | p_w_end => "_w_end"
  | p_broaden_poly => "_broaden_poly"
  | p_curvefit => "_curvefit"
  end.

(** The checks a setter runs on a value that is not [None]. *)
Definition setter_checks (p : property) (v : npvalue) : result unit :=
  match p with
  | p_spacing => _ ← set_spacing v; Ok ()
  | p_sqrtAWR => _ ← set_sqrtAWR v; Ok ()
  | p_start_E => _ ← set_start_E v; Ok ()
  | p_end_E => _ ← set_end_E v; Ok ()
  | p_data => _ ← set_data v; Ok ()
  | p_w_start => _ ← set_w_start v; Ok ()
  | p_w_end => _ ← set_w_end v; Ok ()
  | p_broaden_poly => _ ← set_broaden_poly v; Ok ()
  | p_curvefit => _ ← set_curvefit v; Ok ()
  end.

(** [self.p = value]: the instance dictionary maps attribute names to
    values, [None] standing for Python's [None]; the checks run first, the
    attribute is stored if they pass. *)
Definition setter (p : property) (self : gmap string (option npvalue))
    (value : option npvalue) : result (gmap string (option npvalue)) :=
  match value with
  | Some v => _ ← setter_checks p v; Ok (<[attribute p := value]> self)
  | None => Ok (<[attribute p := value]> self)
  end.

(** Reading an attribute: its value, or [AttributeError] when the instance
    has no such attribute. *)
Inductive getattr_result : Type :=
| Attr (value : option npvalue)
| AttributeError.

Definition getattr (self : gmap string (option npvalue)) (name : string)
  : getattr_result :=
  match self !! name with
  | Some value => Attr value
  | None => AttributeError
  end.

(** [self.p] *)
Definition getter (p : property) (self : gmap string (option npvalue))
  : getattr_result :=
  getattr self (attribute p).

(** [self.l_value]: [return self._l_value] *)
Definition l_value (self : gmap string (option npvalue)) : getattr_result :=
  getattr self "_l_value".

(** [WindowedMultipole()]: [__init__] sets the nine properties to [None]. *)
Definition __init__ : result (gmap string (option npvalue)) :=
  for_each (λ self p, setter p self None) properties ∅.

(** The objects a program can obtain from the constructor and the
    setters. *)
Inductive reachable : gmap string (option npvalue) → Prop :=
| reachable_init self :
    __init__ = Ok self → reachable self
| reachable_setter self p value self' :
    reachable self → setter p self value = Ok self' → reachable self'.

(** ** Sums *)

(** [f 0 + f 1 + ... + f (n-1)], added from the left starting at 0. *)
Fixpoint sum_to (f : nat → R) (n : nat) : R :=
  match n with
  | O => 0
  | S n' => sum_to f n' + f n'
  end.

(** [self.curvefit[i_window, i_poly, channel]], 0 outside the array. *)
Definition coefficient (t : WindowedMultipole) (i_window : Z) (channel : Z)
    (i_poly : nat) : R :=
  match getitem (curvefit t) [i_window; Z.of_nat i_poly; channel] with
  | Ok x => x
  | Raise _ => 0
  end.

(** [self.data[i_pole, column]], 0 outside the array. *)
Definition pole_entry (t : WindowedMultipole) (i_pole : Z) (column : Z) : C :=
  match getitem (data t) [i_pole; column] with
  | Ok x => x
  | Raise _ => (0, 0)
  end.

(** The plain basis of the curvefit: [E^-1 * sqrt(E)^i], the value of
    [temp] at turn [i]. *)
Definition plain_basis (E : R) (i : nat) : R := 1 / E * sqrt E ^ i.

(** The factor a pole at [ea] is weighted with at 0 K:
    [(-1j / (ea - sqrtE)) / E]. *)
Definition asymptotic_weight (E : R) (ea : C) : C :=
  Cdiv (Cdiv (Copp Cj) (Csub ea (RtoC (sqrt E)))) (RtoC E).

(** The contribution [(residue * weight).real] of the pole [startw + j] to
    the channel of residue column [column]. *)
Definition pole_contribution (t : WindowedMultipole) (weight : C → C)
    (startw : Z) (column : Z) (j : nat) : R :=
  let i_pole := (startw + Z.of_nat j)%Z in
  Cre (Cmul (pole_entry t i_pole column)
            (weight (pole_entry t i_pole _MP_EA))).

(** The factor a pole at [ea] is weighted with at temperature [T]:
    [_faddeeva((sqrtE - ea) * dopp) * dopp * invE * sqrt(pi)] with
    [dopp = sqrtAWR / sqrt(K_BOLTZMANN * T)]. *)
Definition faddeeva_weight (wofz : C → C) (t : WindowedMultipole) (E T : R)
    (ea : C) : C :=
  let dopp := sqrtAWR t / sqrt (K_BOLTZMANN * T) in
  Cscal (Cscal (Cscal (_faddeeva wofz (Cscal (Csub (RtoC (sqrt E)) ea) dopp))
                      dopp) (1 / E)) (sqrt PI).

(** The broadened basis of the curvefit at temperature [T]: the factor [i]
    of [_broaden_wmp_polynomials(E, dopp, fit_order + 1)], 0 where there is
    none. *)
Definition broadened_basis (erf : R → R) (t : WindowedMultipole) (E T : R)
    (i : nat) : R :=
  let dopp := sqrtAWR t / sqrt (K_BOLTZMANN * T) in
  match _broaden_wmp_polynomials erf E dopp (Z.of_nat (n_terms t) - 1 + 1) with
  | Ok factors => default 0 (buffer factors !! i)
  | Raise _ => 0
  end.

(** The three cross sections as sums: the curvefit coefficients of window
    [i_window] against a basis, then the residues of the poles
    [startw .. endw - 1] against a weight; the fission sum is 0 for a table
    without fission residue. *)
Definition cross_sections (t : WindowedMultipole) (basis : nat → R)
    (weight : C → C) (i_window startw endw : Z) : xs :=
  let channel fit column :=
    sum_to (λ i, coefficient t i_window fit i * basis i) (n_terms t)
    + sum_to (pole_contribution t weight startw column)
             (Z.to_nat (endw - startw)) in
  (channel _FIT_T _MP_RT, channel _FIT_A _MP_RA,
   if bool_decide (n_columns t = 4%nat) then channel _FIT_F _MP_RF else 0).

(** ** Rounding where it decides an outcome

    The sums of [_evaluate] are modelled in exact arithmetic.  Three of its
    steps decide what happens next, and there binary64 rounding can change
    the outcome: the product [K_BOLTZMANN * T] under [sqrt] (it can
    underflow to zero), the quotient under [floor] that gives the window
    index (it can round up to the next integer), and [w_start[i] - 1] in
    [int64] (it can wrap).  [_evaluate_rounded] is [_evaluate] with these
    three steps as the machine computes them, for a rounding [rnd] of
    which only what [rounding] lists is used. *)

(** The unit roundoff [2^-53] of binary64, half its smallest positive
    number [2^-1075], the smallest positive number [2^-1074] and the
    smallest normal number [2^-1022]. *)
Definition float_u : R := / 2 ^ 53.
Definition float_eta : R := / 2 ^ 1075.
Definition float_min_subnormal : R := / 2 ^ 1074.
Definition float_min_normal : R := / 2 ^ 1022.

(** Rounding to nearest, below the overflow threshold: it is monotone,
    keeps zero, and is off by at most [float_u] times the value, or by
    [float_eta] where the result is subnormal. *)
Record rounding (rnd : R → R) : Prop := {
  rnd_monotone : ∀ x y, x <= y → rnd x <= rnd y;
  rnd_zero : rnd 0 = 0;
  rnd_error : ∀ x, Rabs (rnd x - x) <= float_u * Rabs x + float_eta
}.

(** Exact arithmetic with underflow: a magnitude of at most [2^-1075]
    rounds to zero, as it does in binary64. *)
Definition flush64 (x : R) : R :=
  if Rle_dec (Rabs x) float_eta then 0 else x.

(** Subtraction and addition on [int64] wrap around. *)
Definition wrap64 (z : Z) : Z := ((z + 2 ^ 63) `mod` 2 ^ 64 - 2 ^ 63)%Z.

(** [int(np.floor((sqrtE - sqrt(self.start_E)) / self.spacing))] with the
    two roots, the difference and the quotient rounded. *)
Definition locate_rounded (rnd : R → R) (self : WindowedMultipole)
    (sqrtE : R) : result Z :=
  s ← py_sqrt (start_E self);
  q ← py_div (rnd (rnd sqrtE - rnd s)) (spacing self);
  Ok (Zfloor (rnd q)).

(** [self._evaluate(E, T)] with the product under the first [sqrt] and the
    window index rounded, and [startw] computed in [int64]. *)
Definition _evaluate_rounded (rnd : R → R) (erf : R → R) (wofz : C → C)
    (self : WindowedMultipole) (E T : R) : result xs :=
  if Rlt_dec E (start_E self) then Ok (0, 0, 0)
  else if Rlt_dec (end_E self) E then Ok (0, 0, 0)
  else
    sqrtkT ← py_sqrt (rnd (K_BOLTZMANN * T));
    sqrtE ← py_sqrt E;
    invE ← py_div 1 E;
    i_window ← locate_rounded rnd self sqrtE;
    ws ← getitem (w_start self) [i_window];
    let startw := wrap64 (ws - 1) in
    endw ← getitem (w_end self) [i_window];
    sig ← curvefit_sum erf self E sqrtkT sqrtE invE i_window;
    pole_sum wofz self E sqrtkT sqrtE invE startw endw sig.

(** The values of [dopp] whose square and fourth power binary64 holds
    with room to spare: beyond them [dopp**2] and [half_inv_dopp2**2]
    overflow or underflow, and Python raises. *)
Definition dopp_in_range (dopp : R) : Prop := 1e-70 <= dopp <= 1e150.

(** The temperatures [_evaluate] is used at: 0 K, or a temperature whose
    [dopp = sqrtAWR / sqrt(K_BOLTZMANN * T)] is in range. *)
Definition temperature_in_range (t : WindowedMultipole) (T : R) : Prop :=
  T = 0 ∨ (0 < T ∧ dopp_in_range (sqrtAWR t / sqrt (K_BOLTZMANN * T))).

(** The half-open pole range [[w_start[i] - 1, w_end[i])] of window [i],
    the subtraction taken in [int64], is contained in
    [[0, number of poles)]. *)
Definition pole_range_within (t : WindowedMultipole) (i : Z) : Prop :=
  ∀ ws we, getitem (w_start t) [i] = Ok ws → getitem (w_end t) [i] = Ok we →
    ∀ k, (wrap64 (ws - 1) ≤ k < we)%Z → (0 ≤ k < Z.of_nat (n_poles t))%Z.

(** [sqrt(E)] is below the end of the last window by more than the rounding
    of the window index can bridge: sixteen units of roundoff of
    [sqrt(E)]; the window width is a normal number. *)
Definition below_last_window (t : WindowedMultipole) (E : R) : Prop :=
  float_min_normal <= spacing t ∧
  sqrt E - sqrt (start_E t) + 16 * float_u * sqrt E
  < INR (n_windows t) * spacing t.

(** The energies at which the evaluation of a loaded table goes through
    whatever the rounding: outside [[start_E, end_E]]; or inside it and
    positive, below the end of the last window, the pole range of the
    located window within the poles, and a fission curvefit channel
    present if the poles carry a fission residue. *)
Definition in_rounded_domain (rnd : R → R) (t : WindowedMultipole) (E : R)
  : Prop :=
  (E < start_E t ∨ E > end_E t) ∨
  (start_E t <= E <= end_E t ∧ 0 < E ∧
   below_last_window t E ∧
   (∀ i, locate_rounded rnd t (sqrt E) = Ok i → pole_range_within t i) ∧
   (n_columns t = 4%nat → n_channels t = 3%nat)).

(** ** The domain of [_evaluate] *)

(** The energies and temperatures at which [_evaluate_rounded] goes
    through: outside [[start_E, end_E]]; or inside it, with the rounded
    product [K_BOLTZMANN * T] not negative and [E > 0], the located window
    one of the table's, every pole index of [[w_start - 1, w_end)] one
    numpy accepts for the poles (from minus their number up to their
    number, a negative index counting from the end), and a fission curvefit
    channel present if the poles carry a fission residue. *)
Definition evaluable (rnd : R → R) (t : WindowedMultipole) (E T : R) : Prop :=
  (E < start_E t ∨ end_E t < E) ∨
  (0 <= rnd (K_BOLTZMANN * T) ∧ 0 < E ∧
   ∃ i_window ws we,
     locate_rounded rnd t (sqrt E) = Ok i_window ∧
     (i_window < Z.of_nat (n_windows t))%Z ∧
     getitem (w_start t) [i_window] = Ok ws ∧
     getitem (w_end t) [i_window] = Ok we ∧
     (∀ k, (wrap64 (ws - 1) ≤ k < we)%Z →
           (- Z.of_nat (n_poles t) ≤ k < Z.of_nat (n_poles t))%Z) ∧
     (n_columns t = 4%nat → n_channels t = 3%nat)).

(** * Properties *)

(** ** The error monad and loops *)

(** Runs the binds whose first computation is a value. *)
Ltac run := cbn [mbind result_bind mret result_ret].

Lemma bind_Ok {A B : Type} (m : result A) (f : A → result B) (b : B) :
  m ≫= f = Ok b → ∃ a, m = Ok a ∧ f a = Ok b.
Proof. destruct m as [a|e]; simpl; [eauto | discriminate]. Qed.

(** Partial correctness of a loop: an invariant kept by the body holds of
    the final state. *)
Lemma for_each_inv {A S : Type} (body : S → A → result S) (P : S → Prop) (l : list A) :
  (∀ x s s', P s → body s x = Ok s' → P s') →
  ∀ s s', P s → for_each body l s = Ok s' → P s'.
Proof.
  intros Hbody; induction l as [|x l IH]; intros s s' Hs; simpl.
  - intros [= <-]; exact Hs.
  - intros H; apply bind_Ok in H as (s1 & H1 & H2); eauto.
Qed.

(** Total correctness of a loop over [range(a, a + len)]. *)
Lemma for_each_range {St : Type} (body : St → Z → result St)
    (P : Z → St → Prop) (a len : Z) (s : St) :
  P a s →
  (∀ i s, (a ≤ i < a + len)%Z → P i s → ∃ s', body s i = Ok s' ∧ P (i + 1)%Z s') →
  ∃ s', for_each body (seqZ a len) s = Ok s' ∧ P (a + Z.max 0 len)%Z s'.
Proof.
  destruct (Z_le_gt_dec len 0) as [Hle|Hgt].
  { intros Hs _. rewrite seqZ_nil by lia. exists s; split; [reflexivity|].
    replace (a + Z.max 0 len)%Z with a by lia; exact Hs. }
  replace (Z.max 0 len) with len by lia.
  rewrite <- (Z2Nat.id len) by lia.
  generalize (Z.to_nat len) as n; clear Hgt; intros n; revert a s.
  induction n as [|n IH]; intros a s Hs Hbody.
  - exists s; split; [reflexivity|]. replace (a + Z.of_nat 0)%Z with a by lia. exact Hs.
  - rewrite seqZ_cons by lia. simpl for_each.
    destruct (Hbody a s ltac:(lia) Hs) as (s1 & H1 & HP1).
    rewrite H1; simpl.
    replace (Z.pred (Z.of_nat (S n))) with (Z.of_nat n) by lia.
    destruct (IH (Z.succ a) s1) as (s' & H' & HP').
    + replace (Z.succ a) with (a + 1)%Z by lia; exact HP1.
    + intros i s2 Hi; apply Hbody; lia.
    + exists s'; split; [exact H'|].
      replace (a + Z.of_nat (S n))%Z with (Z.succ a + Z.of_nat n)%Z by lia; exact HP'.
Qed.

(** ** Real-number facts used below *)

Lemma K_BOLTZMANN_pos : 0 < K_BOLTZMANN.
Proof. unfold K_BOLTZMANN; lra. Qed.

Lemma py_sqrt_Ok (x : R) : 0 <= x → py_sqrt x = Ok (sqrt x).
Proof. intros Hx; unfold py_sqrt; destruct (Rlt_dec x 0); [lra | reflexivity]. Qed.


Lemma py_div_Ok (a b : R) : b ≠ 0 → py_div a b = Ok (a / b).
Proof. intros Hb; unfold py_div; destruct (Req_dec_T b 0); [contradiction | reflexivity]. Qed.


Lemma sqrt_25 : sqrt 25 = 5.
Proof. apply sqrt_lem_1; lra. Qed.


Lemma atan_pos (x : R) : 0 < x → 0 < atan x.
Proof. intros Hx; rewrite <- atan_0; apply atan_increasing; exact Hx. Qed.

Lemma atan_nonpos (x : R) : x <= 0 → atan x <= 0.
Proof.
  intros [Hx | ->]; [|rewrite atan_0; lra].
  apply Rlt_le; rewrite <- atan_0; apply atan_increasing; exact Hx.
Qed.

(** The sign of [atan2]: positive in the open upper half plane and on the
    negative real axis, where it is [PI]. *)
Lemma atan2_pos (y x : R) : 0 < atan2 y x ↔ 0 < y ∨ (y = 0 ∧ x < 0).
Proof.
  pose proof PI_RGT_0 as HPI.
  unfold atan2.
  destruct (Rlt_dec 0 x) as [Hx|Hx].
  - split.
    + intros Hpos. left.
      destruct (Rle_lt_dec y 0) as [Hy|Hy]; [|exact Hy].
      assert (y / x <= 0) as Hq.
      { unfold Rdiv. pose proof (Rinv_0_lt_compat x Hx). nra. }
      pose proof (atan_nonpos _ Hq); lra.
    + intros [Hy | [_ Hx']]; [|lra].
      apply atan_pos. apply Rdiv_lt_0_compat; assumption.
  - destruct (Rlt_dec x 0) as [Hx'|Hx'].
    + destruct (Rle_dec 0 y) as [Hy|Hy].
      * pose proof (atan_bound (y / x)). split; [intros _|intros _; lra].
        destruct Hy as [Hy| <-]; [left; exact Hy | right; split; [reflexivity | exact Hx']].
      * pose proof (atan_bound (y / x)). split; [lra | intros [Hy' | [Hy' _]]; lra].
    + destruct (Rlt_dec 0 y) as [Hy|Hy]; [split; [intros _; left; exact Hy | lra]|].
      destruct (Rlt_dec y 0) as [Hy'|Hy']; split; lra.
Qed.

Lemma atan2_negative_axis : atan2 0 (-1) = PI.
Proof.
  unfold atan2.
  destruct (Rlt_dec 0 (-1)); [lra|].
  destruct (Rlt_dec (-1) 0); [|lra].
  destruct (Rle_dec 0 0); [|lra].
  replace (0 / -1) with 0 by lra. rewrite atan_0; lra.
Qed.

(** ** Indexing *)

Lemma norm_index_nonneg (n : nat) (i : Z) :
  (0 ≤ i < Z.of_nat n)%Z → norm_index n i = Ok (Z.to_nat i).
Proof. intros Hi; unfold norm_index; rewrite decide_True by exact Hi; reflexivity. Qed.

Lemma norm_index_Ok_lt (n : nat) (i : Z) (k : nat) :
  norm_index n i = Ok k → (k < n)%nat.
Proof.
  unfold norm_index; repeat case_decide; intros [= <-]; lia.
Qed.

Lemma norm_index_in_range (n : nat) (i : Z) :
  (- Z.of_nat n ≤ i < Z.of_nat n)%Z → ∃ k, norm_index n i = Ok k.
Proof.
  intros Hi; unfold norm_index; repeat case_decide; eauto; lia.
Qed.

Lemma norm_index_out_of_range (n : nat) (i : Z) :
  (Z.of_nat n ≤ i)%Z → norm_index n i = Raise IndexError.
Proof.
  intros Hi; unfold norm_index; repeat case_decide; try reflexivity; lia.
Qed.

Lemma offset_Ok_lt (sh : list nat) (idx : list Z) (acc o : nat) :
  offset sh idx acc = Ok o → (o < (acc + 1) * size_of sh)%nat.
Proof.
  revert idx acc; induction sh as [|n sh IH]; intros [|i idx] acc; simpl;
    try discriminate.
  - intros [= <-]; lia.
  - intros H; apply bind_Ok in H as (k & Hk & Ho).
    apply norm_index_Ok_lt in Hk. apply IH in Ho.
    fold (size_of sh). nia.
Qed.

Lemma offset_in_range (sh : list nat) (idx : list Z) (acc : nat) :
  Forall2 (λ n i, - Z.of_nat n ≤ i < Z.of_nat n)%Z sh idx →
  ∃ o, offset sh idx acc = Ok o.
Proof.
  intros H; revert acc; induction H as [|n i sh idx Hi _ IH]; intros acc; simpl.
  - eauto.
  - destruct (norm_index_in_range n i Hi) as (k & ->); simpl. apply IH.
Qed.

(** Inside the bounds of a well-formed array, [a[idx]] returns. *)
Lemma getitem_in_range {A : Type} (a : ndarray A) (idx : list Z) :
  wf_ndarray a →
  Forall2 (λ n i, - Z.of_nat n ≤ i < Z.of_nat n)%Z (shape a) idx →
  ∃ x, getitem a idx = Ok x.
Proof.
  intros Hwf Hidx; unfold getitem.
  destruct (offset_in_range _ _ 0%nat Hidx) as (o & Ho); rewrite Ho; simpl.
  apply offset_Ok_lt in Ho. red in Hwf.
  destruct (lookup_lt_is_Some_2 (buffer a) o ltac:(lia)) as (x & ->); eauto.
Qed.

Lemma getitem_1d {A : Type} (a : ndarray A) (n : nat) (i : Z) (x : A) :
  shape a = [n] → (0 ≤ i < Z.of_nat n)%Z → buffer a !! Z.to_nat i = Some x →
  getitem a [i] = Ok x.
Proof.
  intros Hsh Hi Hx; unfold getitem; rewrite Hsh; simpl.
  rewrite norm_index_nonneg by exact Hi; simpl. rewrite Hx; reflexivity.
Qed.

Lemma getitem_1d_out {A : Type} (a : ndarray A) (n : nat) (i : Z) :
  shape a = [n] → (Z.of_nat n ≤ i)%Z → getitem a [i] = Raise IndexError.
Proof.
  intros Hsh Hi; unfold getitem; rewrite Hsh; simpl.
  rewrite norm_index_out_of_range by exact Hi; reflexivity.
Qed.

Lemma setitem_1d {A : Type} (a : ndarray A) (n : nat) (i : Z) (v : A) :
  shape a = [n] → length (buffer a) = n → (0 ≤ i < Z.of_nat n)%Z →
  setitem a [i] v = Ok (NDArray [n] (<[Z.to_nat i := v]> (buffer a))).
Proof.
  intros Hsh Hlen Hi; unfold setitem; rewrite Hsh; simpl.
  rewrite norm_index_nonneg by exact Hi; simpl.
  rewrite decide_True by lia. reflexivity.
Qed.

(** ** The broadening recurrence *)

Lemma recurrence_at_insert (E h : R) (f : list R) (i j : nat) (v : R) :
  (i + 2 < j)%nat → recurrence_at E h f i → recurrence_at E h (<[j := v]> f) i.
Proof.
  intros Hj (fi & fi2 & Hi & Hi2 & Heq).
  exists fi, fi2. rewrite !list_lookup_insert_ne by lia.
  split; [exact Hi|]. split; [exact Hi2|].
  case_decide; [exact Heq|].
  destruct Heq as (fim2 & Him2 & Heq); exists fim2; auto.
Qed.

Lemma broaden_step_inv (E h : R) (n : nat) (v0 v1 v2 : R) (i : Z)
    (factors : ndarray R) :
  (1 ≤ i ∧ i + 2 < Z.of_nat n)%Z →
  broaden_inv E h n v0 v1 v2 i factors →
  ∃ factors', broaden_step E h (h ^ 2) factors i = Ok factors' ∧
              broaden_inv E h n v0 v1 v2 (i + 1) factors'.
Proof.
  intros Hi (Hsh & Hlen & H0 & H1 & H2 & Hrec).
  set (k := Z.to_nat i).
  assert (i = Z.of_nat k) as Hik by lia.
  assert (IZR i = INR k) as HIZR by (rewrite Hik, <- INR_IZR_INZ; reflexivity).
  destruct (lookup_lt_is_Some_2 (buffer factors) k ltac:(lia)) as (fi & Hfi).
  destruct (lookup_lt_is_Some_2 (buffer factors) (k - 2) ltac:(lia)) as (fim2 & Hfim2).
  assert (∀ v, ∃ factors',
    setitem factors [(i + 2)%Z] v = Ok factors' ∧
    shape factors' = [n] ∧ buffer factors' = <[(k + 2)%nat := v]> (buffer factors))
    as Hset.
  { intros v. eexists. rewrite (setitem_1d factors n); [|exact Hsh|exact Hlen|lia].
    split; [reflexivity|]. split; [reflexivity|]. simpl.
    replace (Z.to_nat (i + 2)) with (k + 2)%nat by lia. reflexivity. }
  assert (∀ v factors', shape factors' = [n] →
    buffer factors' = <[(k + 2)%nat := v]> (buffer factors) →
    recurrence_at E h (buffer factors') k →
    broaden_inv E h n v0 v1 v2 (i + 1) factors') as Hkeep.
  { intros v factors' Hsh' Hbuf Hnew. unfold broaden_inv. rewrite Hbuf in *.
    split; [exact Hsh'|]. split; [rewrite length_insert; exact Hlen|].
    rewrite !list_lookup_insert_ne by lia.
    repeat (split; [assumption|]).
    intros j Hj. destruct (decide (j = k)) as [->|Hne]; [exact Hnew|].
    apply recurrence_at_insert; [lia|]. apply Hrec; lia. }
  assert (getitem factors [i] = Ok fi) as Hget.
  { apply (getitem_1d factors n); [exact Hsh | lia | exact Hfi]. }
  unfold broaden_step. case_decide as Hne.
  - assert (getitem factors [(i - 2)%Z] = Ok fim2) as ->.
    { apply (getitem_1d factors n); [exact Hsh | lia |].
      replace (Z.to_nat (i - 2)) with (k - 2)%nat by lia; exact Hfim2. }
    simpl. rewrite Hget. simpl.
    match goal with |- context [setitem _ _ ?v] => destruct (Hset v) as (f' & -> & Hsh' & Hbuf) end.
    exists f'; split; [reflexivity|]. eapply Hkeep; eauto.
    rewrite Hbuf. exists fi. eexists.
    rewrite list_lookup_insert_ne by lia. split; [exact Hfi|].
    rewrite list_lookup_insert_eq by lia. split; [reflexivity|].
    rewrite decide_False by lia. exists fim2.
    rewrite list_lookup_insert_ne by lia. split; [exact Hfim2|].
    rewrite HIZR; reflexivity.
  - rewrite Hget. simpl.
    match goal with |- context [setitem _ _ ?v] => destruct (Hset v) as (f' & -> & Hsh' & Hbuf) end.
    exists f'; split; [reflexivity|]. eapply Hkeep; eauto.
    rewrite Hbuf. exists fi. eexists.
    rewrite list_lookup_insert_ne by lia. split; [exact Hfi|].
    rewrite list_lookup_insert_eq by lia. split; [reflexivity|].
    rewrite decide_True by lia. rewrite HIZR; reflexivity.
Qed.

(** [_broaden_wmp_polynomials] returns, and the state its loop ends in. *)
Lemma broaden_wmp_polynomials_Ok (erf : R → R) (E dopp : R) (n : Z) :
  0 < E → 0 < dopp → (3 ≤ n)%Z →
  let sqrtE := sqrt E in
  let beta := sqrtE * dopp in
  let h := 1 / (2 * dopp ^ 2) in
  let erf_beta := if Rlt_dec 6 beta then 1 else erf beta in
  let exp_m_beta2 := if Rlt_dec 6 beta then 0 else exp (- beta ^ 2) in
  ∃ factors : ndarray R,
    _broaden_wmp_polynomials erf E dopp n = Ok factors ∧
    broaden_inv E h (Z.to_nat n) (erf_beta / E) (1 / sqrtE)
      (erf_beta / E * (h + E) + exp_m_beta2 / (beta * sqrt PI))
      (n - 2) factors.
Proof.
  intros HE Hdopp Hn sqrtE beta h erf_beta exp_m_beta2.
  assert (0 < sqrtE) as HsqrtE by (apply sqrt_lt_R0; exact HE).
  assert (0 < sqrt PI) as HsqrtPI by (apply sqrt_lt_R0, PI_RGT_0).
  assert (dopp ^ 2 ≠ 0) as Hd2 by (apply pow_nonzero; lra).
  assert (beta * sqrt PI ≠ 0) as Hb.
  { apply Rgt_not_eq. unfold beta. repeat apply Rmult_lt_0_compat; assumption. }
  assert (0.5 / dopp ^ 2 = h) as Hh.
  { unfold h. replace 0.5 with (1 / 2) by lra. field; lra. }
  set (N := Z.to_nat n).
  unfold _broaden_wmp_polynomials.
  rewrite py_sqrt_Ok by lra; run.
  rewrite (py_div_Ok 0.5 (dopp ^ 2)) by exact Hd2; run. rewrite Hh.
  unfold np_zeros; rewrite decide_False by lia; run.
  fold sqrtE beta erf_beta exp_m_beta2 N.
  rewrite (py_div_Ok erf_beta E) by lra; run.
  rewrite (setitem_1d _ N); [|reflexivity|apply length_replicate|lia]. run.
  rewrite (py_div_Ok 1 sqrtE) by lra; run.
  rewrite (setitem_1d _ N);
    [|reflexivity|simpl; rewrite length_insert; apply length_replicate|lia].
  run. cbn [buffer]. change (Z.to_nat 0) with 0%nat. change (Z.to_nat 1) with 1%nat.
  set (b1 := <[1%nat := 1 / sqrtE]> (<[0%nat := erf_beta / E]> (replicate N 0))).
  assert (length b1 = N) as Hlen1
    by (unfold b1; rewrite !length_insert; apply length_replicate).
  assert (b1 !! 0%nat = Some (erf_beta / E)) as H0.
  { unfold b1. rewrite list_lookup_insert_ne by lia.
    apply list_lookup_insert_eq. rewrite length_replicate; lia. }
  rewrite (getitem_1d _ N 0 (erf_beta / E)); [|reflexivity|lia|exact H0]. run.
  rewrite (py_div_Ok exp_m_beta2 (beta * sqrt PI)) by exact Hb; run.
  rewrite (setitem_1d _ N); [|reflexivity|exact Hlen1|lia]. run.
  cbn [buffer]. change (Z.to_nat 2) with 2%nat.
  set (v2 := erf_beta / E * (h + E) + exp_m_beta2 / (beta * sqrt PI)).
  set (b2 := <[2%nat := v2]> b1).
  unfold py_range.
  destruct (for_each_range (broaden_step E h (h ^ 2))
              (broaden_inv E h N (erf_beta / E) (1 / sqrtE) v2)
              1 (n - 2 - 1) (NDArray [N] b2)) as (factors & Hfor & Hinv).
  - split; [reflexivity|]. simpl.
    split; [unfold b2; rewrite length_insert; exact Hlen1|].
    unfold b2. rewrite !list_lookup_insert_ne by lia.
    split; [exact H0|]. split.
    { unfold b1. apply list_lookup_insert_eq. rewrite length_insert, length_replicate; lia. }
    split; [apply list_lookup_insert_eq; lia|].
    intros k Hk; lia.
  - intros i s Hi Hs. apply broaden_step_inv; [lia | exact Hs].
  - exists factors. split; [exact Hfor|].
    replace (1 + Z.max 0 (n - 2 - 1))%Z with (n - 2)%Z in Hinv by lia.
    exact Hinv.
Qed.



(** Called with Python floats, the kernel raises for a [dopp > 0] whose
    square binary64 cannot hold: [dopp**2] overflows at [1e200]
    (OverflowError), it underflows to [0.0] at [1e-200] and [0.5 / 0.0] is
    a ZeroDivisionError, and at [1e-100] the square of [half_inv_dopp2]
    overflows. *)
Lemma broaden_wmp_polynomials_out_of_range :
  Binary64._broaden_wmp_polynomials Binary64.erf0 Binary64.exp0
    Binary64.f1 Binary64.f1e200 3 = Raise OverflowError ∧
  Binary64._broaden_wmp_polynomials Binary64.erf0 Binary64.exp0
    Binary64.f1 Binary64.f1e_200 3 = Raise ZeroDivisionError ∧
  Binary64._broaden_wmp_polynomials Binary64.erf0 Binary64.exp0
    Binary64.f1 Binary64.f1e_100 3 = Raise OverflowError.
Proof. repeat split; vm_compute; reflexivity. Qed.

(** ** The Faddeeva dispatch *)

(** C2 (as amended). [_faddeeva] branches on [np.angle(z) > 0], which holds
    exactly when [Im z > 0] or [z] lies on the negative real axis; there it
    returns [wofz(z)], and everywhere else [-conj(wofz(conj(z)))]. *)
Theorem faddeeva_dispatch (wofz : C → C) (z : C) :
  (0 < np_angle z ↔ 0 < Cim z ∨ (Cim z = 0 ∧ Cre z < 0)) ∧
  (0 < Cim z ∨ (Cim z = 0 ∧ Cre z < 0) → _faddeeva wofz z = wofz z) ∧
  (Cim z < 0 ∨ (Cim z = 0 ∧ 0 <= Cre z) →
   _faddeeva wofz z = Copp (Cconj (wofz (Cconj z)))).
Proof.
  pose proof (atan2_pos (Cim z) (Cre z)) as Hpos. fold (np_angle z) in Hpos.
  split; [exact Hpos|].
  unfold _faddeeva. destruct (Rlt_dec 0 (np_angle z)) as [Ha|Ha].
  - split; [reflexivity|]. apply Hpos in Ha. intros H; exfalso; lra.
  - split; [|reflexivity]. intros H. apply Hpos in H. contradiction.
Qed.

Lemma faddeeva_dispatch_witness :
  _faddeeva wofz0 (0, 1) = wofz0 (0, 1) ∧
  _faddeeva wofz0 (-1, 0) = wofz0 (-1, 0) ∧
  _faddeeva wofz0 (1, 0) = Copp (Cconj (wofz0 (Cconj (1, 0)))).
Proof.
  split; [|split].
  - apply (faddeeva_dispatch wofz0 (0, 1)). left; simpl; lra.
  - apply (faddeeva_dispatch wofz0 (-1, 0)). right; simpl; lra.
  - apply (faddeeva_dispatch wofz0 (1, 0)). right; simpl; lra.
Defined.

(** On the negative real axis the imaginary part is not positive, the angle
    is, and [_faddeeva] returns the direct value, not the reflected one a
    dispatch on the imaginary part would give; the two differ whenever
    [wofz] has a non-zero real part there (for the Faddeeva function it is
    [exp(-x^2)]). *)
Lemma faddeeva_negative_real_axis :
  ¬ (0 < Cim (-1, 0)) ∧ 0 < np_angle (-1, 0) ∧
  _faddeeva wofz0 (-1, 0) = wofz0 (-1, 0) ∧
  _faddeeva wofz0 (-1, 0) ≠ Copp (Cconj (wofz0 (Cconj (-1, 0)))).
Proof.
  assert (0 < np_angle (-1, 0)) as Hangle.
  { unfold np_angle; simpl. rewrite atan2_negative_axis. apply PI_RGT_0. }
  assert (_faddeeva wofz0 (-1, 0) = wofz0 (-1, 0)) as Hdirect.
  { unfold _faddeeva. destruct (Rlt_dec 0 (np_angle (-1, 0))); [reflexivity | contradiction]. }
  split; [simpl; lra|]. split; [exact Hangle|]. split; [exact Hdirect|].
  rewrite Hdirect. unfold wofz0, Copp, Cconj, Cre, Cim; simpl.
  intros [= Hre _]. pose proof (exp_pos (- (-1 * (-1 * 1)))). lra.
Qed.

(** The evaluator reaches the negative real axis: a pole on the real axis
    above [sqrt(E)] gives an argument [Z] there. *)
Lemma pole_term_T_argument_on_negative_axis (sqrtE p dopp : R) :
  sqrtE < p → 0 < dopp →
  let Z := Cscal (Csub (RtoC sqrtE) (p, 0)) dopp in
  Cim Z = 0 ∧ Cre Z < 0.
Proof.
  intros Hp Hd; unfold Cscal, Csub, RtoC, Cre, Cim; simpl. split; nra.
Qed.

(** ** Evaluation outside the energy range, and at negative temperature *)

(** The two range tests at the head of [_evaluate]. *)
Lemma evaluate_outside (erf : R → R) (wofz : C → C)
    (t : WindowedMultipole) (E T : R) :
  E < start_E t ∨ E > end_E t → _evaluate erf wofz t E T = Ok (0, 0, 0).
Proof.
  intros H; unfold _evaluate.
  destruct (Rlt_dec E (start_E t)); [reflexivity|].
  destruct (Rlt_dec (end_E t) E); [reflexivity|].
  exfalso; lra.
Qed.

(** C3. For [E < start_E] or [E > end_E], [_evaluate] returns [(0, 0, 0)];
    this holds of every table, whatever its arrays contain, and of every
    temperature. *)
Theorem evaluate_out_of_range (erf : R → R) (wofz : C → C)
    (t : WindowedMultipole) (E T : R) :
  E < start_E t ∨ E > end_E t → _evaluate erf wofz t E T = Ok (0, 0, 0).
Proof.
  intros [Hlow | Hhigh]; unfold _evaluate.
  - destruct (Rlt_dec E (start_E t)) as [_|Hn]; [reflexivity | contradiction].
  - destruct (Rlt_dec E (start_E t)) as [_|_]; [reflexivity|].
    destruct (Rlt_dec (end_E t) E) as [_|Hn]; [reflexivity|].
    exfalso; apply Hn; exact Hhigh.
Qed.

Lemma evaluate_out_of_range_witness :
  _evaluate erf0 wofz0 (one_window_table 1 9 1 2 3 4 5 6) 0.5 300 = Ok (0, 0, 0) ∧
  _evaluate erf0 wofz0 (one_window_table 1 9 1 2 3 4 5 6) 101 (-1) = Ok (0, 0, 0).
Proof.
  split; apply evaluate_out_of_range; simpl; [left | right]; lra.
Defined.



(** ** Loading *)

Lemma check_greater_than_strict (x : R) :
  check_greater_than x 0 false = Ok () ↔ 0 < x.
Proof.
  unfold check_greater_than; destruct (Rle_dec x 0); split;
    try discriminate; try reflexivity; lra.
Qed.

Lemma check_greater_than_large (x : R) :
  check_greater_than x 0 true = Ok () ↔ 0 <= x.
Proof.
  unfold check_greater_than; destruct (Rlt_dec x 0); split;
    try discriminate; try reflexivity; lra.
Qed.

Lemma set_positive_float (x : R) :
  0 < x → set_spacing (NpFloat x) = Ok x ∧ set_sqrtAWR (NpFloat x) = Ok x ∧
          set_start_E (NpFloat x) = Ok x ∧ set_end_E (NpFloat x) = Ok x.
Proof.
  intros Hx. unfold set_spacing, set_sqrtAWR, set_start_E, set_end_E.
  cbn [check_type_Real]; run.
  rewrite (proj2 (check_greater_than_strict x) Hx).
  rewrite (proj2 (check_greater_than_large x)) by lra. auto.
Qed.

Lemma set_start_E_float (x : R) : 0 <= x → set_start_E (NpFloat x) = Ok x.
Proof.
  intros Hx. unfold set_start_E. cbn [check_type_Real]; run.
  rewrite (proj2 (check_greater_than_large x) Hx). reflexivity.
Qed.

Lemma set_spacing_Ok (v : npvalue) (x : R) : set_spacing v = Ok x → 0 < x.
Proof.
  unfold set_spacing; intros H.
  apply bind_Ok in H as (y & _ & H). apply bind_Ok in H as ([] & Hy & [= <-]).
  apply check_greater_than_strict; exact Hy.
Qed.

Lemma set_sqrtAWR_Ok (v : npvalue) (x : R) : set_sqrtAWR v = Ok x → 0 < x.
Proof. exact (set_spacing_Ok v x). Qed.

Lemma set_end_E_Ok (v : npvalue) (x : R) : set_end_E v = Ok x → 0 < x.
Proof. exact (set_spacing_Ok v x). Qed.

Lemma set_start_E_Ok (v : npvalue) (x : R) : set_start_E v = Ok x → 0 <= x.
Proof.
  unfold set_start_E; intros H.
  apply bind_Ok in H as (y & _ & H). apply bind_Ok in H as ([] & Hy & [= <-]).
  apply check_greater_than_large; exact Hy.
Qed.

Lemma check_type_ndarray_Ok (v : npvalue) (sh : list nat) :
  check_type_ndarray v = Ok sh → np_shape v = Some sh.
Proof. unfold check_type_ndarray; destruct (np_shape v); intros [= <-]; reflexivity. Qed.

Lemma set_data_Ok (v : npvalue) (a : ndarray C) :
  set_data v = Ok a →
  v = NpArrC a ∧ ∃ n_poles n_cols,
    shape a = [n_poles; n_cols] ∧ (n_cols = 3 ∨ n_cols = 4)%nat.
Proof.
  unfold set_data; intros H. apply bind_Ok in H as (sh & Hsh & H).
  apply check_type_ndarray_Ok in Hsh.
  case_decide as Hlen; [discriminate|]. case_decide as Hcols; [|discriminate].
  destruct v; try discriminate. injection H as ->. simpl in Hsh; injection Hsh as <-.
  split; [reflexivity|].
  destruct (shape a) as [|n0 [|n1 [|n2 sh]]]; simpl in *; try lia.
  exists n0, n1; split; [reflexivity|]. destruct Hcols as [[=]|[=]]; lia.
Qed.

Lemma set_w_start_Ok (v : npvalue) (a : ndarray Z) :
  set_w_start v = Ok a → v = NpArrI a ∧ ∃ n, shape a = [n].
Proof.
  unfold set_w_start; intros H. apply bind_Ok in H as (sh & Hsh & H).
  apply check_type_ndarray_Ok in Hsh.
  case_decide as Hlen; [discriminate|].
  destruct v; try discriminate. injection H as ->. simpl in Hsh; injection Hsh as <-.
  split; [reflexivity|].
  destruct (shape a) as [|n0 [|n1 sh]]; simpl in *; try lia. eauto.
Qed.

Lemma set_w_end_Ok (v : npvalue) (a : ndarray Z) :
  set_w_end v = Ok a → v = NpArrI a ∧ ∃ n, shape a = [n].
Proof. exact (set_w_start_Ok v a). Qed.

Lemma set_broaden_poly_Ok (v : npvalue) (a : ndarray bool) :
  set_broaden_poly v = Ok a → v = NpArrB a ∧ ∃ n, shape a = [n].
Proof.
  unfold set_broaden_poly; intros H. apply bind_Ok in H as (sh & Hsh & H).
  apply check_type_ndarray_Ok in Hsh.
  case_decide as Hlen; [discriminate|].
  destruct v; try discriminate. injection H as ->. simpl in Hsh; injection Hsh as <-.
  split; [reflexivity|].
  destruct (shape a) as [|n0 [|n1 sh]]; simpl in *; try lia. eauto.
Qed.

Lemma set_curvefit_Ok (v : npvalue) (a : ndarray R) :
  set_curvefit v = Ok a →
  v = NpArrF a ∧ ∃ n_windows n_terms n_channels,
    shape a = [n_windows; n_terms; n_channels] ∧
    (n_channels = 2 ∨ n_channels = 3)%nat.
Proof.
  unfold set_curvefit; intros H. apply bind_Ok in H as (sh & Hsh & H).
  apply check_type_ndarray_Ok in Hsh.
  case_decide as Hlen; [discriminate|]. case_decide as Hch; [|discriminate].
  destruct v; try discriminate. injection H as ->. simpl in Hsh; injection Hsh as <-.
  split; [reflexivity|].
  destruct (shape a) as [|n0 [|n1 [|n2 [|n3 sh]]]]; simpl in *; try lia.
  exists n0, n1, n2; split; [reflexivity|]. destruct Hch as [[=]|[=]]; lia.
Qed.

Lemma shape0_same {A B : Type} (a : ndarray A) (b : ndarray B) :
  shape0_differs a b = Ok false → shape a !! 0%nat = shape b !! 0%nat.
Proof.
  unfold shape0_differs, shape_at; intros H.
  destruct (shape a !! 0%nat) as [n|]; [|discriminate].
  destruct (shape b !! 0%nat) as [m|]; [|discriminate].
  simpl in H. injection H as H. apply bool_decide_eq_false in H.
  destruct (decide (n = m)) as [->|]; [reflexivity | contradiction].
Qed.

(** Inversion of a successful [from_hdf5]: the table is made of values that
    went through the setters and the three length tests. *)
Lemma from_hdf5_Ok (fs : gmap string h5file) (arg : group_or_filename)
    (t : WindowedMultipole) :
  from_hdf5 fs arg = Ok t →
  ∃ group v1 v2 v3 v4 v5 v6 v7 v8 v9,
    open_group fs arg = Ok group ∧
    (dataset group "spacing" = Ok v1 ∧ set_spacing v1 = Ok (spacing t)) ∧
    (dataset group "sqrtAWR" = Ok v2 ∧ set_sqrtAWR v2 = Ok (sqrtAWR t)) ∧
    (dataset group "start_E" = Ok v3 ∧ set_start_E v3 = Ok (start_E t)) ∧
    (dataset group "end_E" = Ok v4 ∧ set_end_E v4 = Ok (end_E t)) ∧
    (dataset group "data" = Ok v5 ∧ set_data v5 = Ok (data t)) ∧
    (dataset group "w_start" = Ok v6 ∧ set_w_start v6 = Ok (w_start t)) ∧
    (dataset group "w_end" = Ok v7 ∧ set_w_end v7 = Ok (w_end t)) ∧
    (dataset group "broaden_poly" = Ok v8 ∧
     set_broaden_poly (astype_bool v8) = Ok (broaden_poly t)) ∧
    (dataset group "curvefit" = Ok v9 ∧ set_curvefit v9 = Ok (curvefit t)) ∧
    shape0_differs (w_end t) (w_start t) = Ok false ∧
    shape0_differs (broaden_poly t) (w_start t) = Ok false ∧
    shape0_differs (curvefit t) (w_start t) = Ok false ∧
    ∃ order, fit_order t = Ok order ∧ (2 ≤ order)%Z.
Proof.
  unfold from_hdf5; intros H.
  apply bind_Ok in H as (group & Hgroup & H).
  apply bind_Ok in H as (x1 & H1%bind_Ok & H).
  apply bind_Ok in H as (x2 & H2%bind_Ok & H).
  apply bind_Ok in H as (x3 & H3%bind_Ok & H).
  apply bind_Ok in H as (x4 & H4%bind_Ok & H).
  apply bind_Ok in H as (x5 & H5%bind_Ok & H).
  apply bind_Ok in H as (x6 & H6%bind_Ok & H).
  apply bind_Ok in H as (x7 & H7%bind_Ok & H).
  apply bind_Ok in H as ([] & Hd1 & H); [discriminate|].
  apply bind_Ok in H as (x8 & H8%bind_Ok & H).
  apply bind_Ok in H as ([] & Hd2 & H); [discriminate|].
  apply bind_Ok in H as (x9 & H9%bind_Ok & H).
  apply bind_Ok in H as ([] & Hd3 & H); [discriminate|].
  apply bind_Ok in H as (order & Horder & H).
  case_decide as Hord; [discriminate|]. injection H as <-. simpl.
  destruct H1 as (v1 & H1), H2 as (v2 & H2), H3 as (v3 & H3), H4 as (v4 & H4),
    H5 as (v5 & H5), H6 as (v6 & H6), H7 as (v7 & H7), H8 as (v8 & H8),
    H9 as (v9 & H9).
  exists group, v1, v2, v3, v4, v5, v6, v7, v8, v9.
  repeat (split; [assumption|]).
  exists order; split; [exact Horder | lia].
Qed.

Lemma dataset_wf (group : gmap string npvalue) (name : string) (v : npvalue) :
  wf_group group → dataset group name = Ok v → wf_npvalue v.
Proof.
  unfold dataset; intros Hwf H.
  destruct (group !! name) as [w|] eqn:Hw; [|discriminate].
  injection H as <-. exact (Hwf name w Hw).
Qed.

Lemma amap_wf {A B : Type} (f : A → B) (a : ndarray A) :
  wf_ndarray a → wf_ndarray (amap f a).
Proof. unfold wf_ndarray, amap; simpl. rewrite length_fmap. auto. Qed.

Lemma astype_bool_wf (v : npvalue) : wf_npvalue v → wf_npvalue (astype_bool v).
Proof. destruct v; simpl; auto using amap_wf. Qed.

(** A table loaded from well-formed arrays has well-formed arrays. *)
Lemma from_hdf5_wf_table (fs : gmap string h5file) (arg : group_or_filename)
    (t : WindowedMultipole) :
  (∀ group, open_group fs arg = Ok group → wf_group group) →
  from_hdf5 fs arg = Ok t → wf_table t.
Proof.
  intros Hwf H. apply from_hdf5_Ok in H
    as (group & v1 & v2 & v3 & v4 & v5 & v6 & v7 & v8 & v9 & Hgroup & _ & _
        & _ & _ & (D5 & H5) & (D6 & H6) & (D7 & H7) & (D8 & H8) & (D9 & H9)
        & _).
  specialize (Hwf group Hgroup).
  apply (dataset_wf _ _ _ Hwf) in D5, D6, D7, D8, D9.
  apply astype_bool_wf in D8.
  apply set_data_Ok in H5 as (-> & _).
  apply set_w_start_Ok in H6 as (-> & _).
  apply set_w_end_Ok in H7 as (-> & _).
  apply set_broaden_poly_Ok in H8 as (Hb & _). rewrite Hb in D8.
  apply set_curvefit_Ok in H9 as (-> & _).
  repeat split; assumption.
Qed.

(** The sample groups load into the sample tables. *)
Lemma one_window_group_loads (fs : gmap string h5file)
    (e0 sp a b c a' b' c' : R) :
  0 <= e0 → 0 < sp →
  from_hdf5 fs (Group (one_window_group e0 sp a b c a' b' c'))
  = Ok (one_window_table e0 sp a b c a' b' c').
Proof.
  intros He0 Hsp. unfold from_hdf5, open_group; run.
  change (dataset (one_window_group e0 sp a b c a' b' c') "spacing")
    with (Ok (NpFloat sp)); run.
  rewrite (proj1 (set_positive_float sp Hsp)); run.
  change (dataset (one_window_group e0 sp a b c a' b' c') "sqrtAWR")
    with (Ok (NpFloat 1)); run.
  rewrite (proj1 (proj2 (set_positive_float 1 ltac:(lra)))); run.
  change (dataset (one_window_group e0 sp a b c a' b' c') "start_E")
    with (Ok (NpFloat e0)); run.
  rewrite (set_start_E_float e0 He0); run.
  change (dataset (one_window_group e0 sp a b c a' b' c') "end_E")
    with (Ok (NpFloat 100)); run.
  rewrite (proj2 (proj2 (proj2 (set_positive_float 100 ltac:(lra))))); run.
  reflexivity.
Qed.


Lemma overrun_group_loads (fs : gmap string h5file) :
  from_hdf5 fs (Group overrun_group) = Ok overrun_table.
Proof.
  unfold from_hdf5, open_group; run.
  change (dataset overrun_group "spacing") with (Ok (NpFloat 9)); run.
  rewrite (proj1 (set_positive_float 9 ltac:(lra))); run.
  change (dataset overrun_group "sqrtAWR") with (Ok (NpFloat 1)); run.
  rewrite (proj1 (proj2 (set_positive_float 1 ltac:(lra)))); run.
  change (dataset overrun_group "start_E") with (Ok (NpFloat 1)); run.
  rewrite (proj1 (proj2 (proj2 (set_positive_float 1 ltac:(lra))))); run.
  change (dataset overrun_group "end_E") with (Ok (NpFloat 100)); run.
  rewrite (proj2 (proj2 (proj2 (set_positive_float 100 ltac:(lra))))); run.
  reflexivity.
Qed.

(** C8 (as amended). A table returned by [from_hdf5] has passed the checks
    collected in [valid_table]: signs of the four scalars, ranks and element
    kinds of the arrays, 3 or 4 pole columns, 2 or 3 curvefit channels, as
    many entries in [w_end], [broaden_poly] and [curvefit] as in [w_start],
    and at least three curvefit terms.  The pole ranges of the windows are
    not among them. *)
Theorem from_hdf5_validation (fs : gmap string h5file)
    (arg : group_or_filename) (t : WindowedMultipole) :
  from_hdf5 fs arg = Ok t → valid_table t.
Proof.
  intros H. apply from_hdf5_Ok in H
    as (group & v1 & v2 & v3 & v4 & v5 & v6 & v7 & v8 & v9 & _ & (_ & H1)
        & (_ & H2) & (_ & H3) & (_ & H4) & (_ & H5) & (_ & H6) & (_ & H7)
        & (_ & H8) & (_ & H9) & Hd1 & Hd2 & Hd3 & order & Horder & Hge).
  apply set_data_Ok in H5 as (_ & Hdata).
  apply set_w_start_Ok in H6 as (_ & nw & Hws).
  apply set_w_end_Ok in H7 as (_ & nw' & Hwe).
  apply set_broaden_poly_Ok in H8 as (_ & nw'' & Hbp).
  apply set_curvefit_Ok in H9 as (_ & n0 & n1 & n2 & Hcf & Hch).
  apply shape0_same in Hd1, Hd2, Hd3.
  rewrite Hws, ?Hwe, ?Hbp, ?Hcf in *. simpl in *.
  injection Hd1 as ->. injection Hd2 as ->. injection Hd3 as ->.
  unfold fit_order, shape_at in Horder. rewrite Hcf in Horder; simpl in Horder.
  injection Horder as <-.
  constructor; eauto using set_spacing_Ok, set_sqrtAWR_Ok, set_start_E_Ok, set_end_E_Ok.
  exists nw, n1, n2. repeat (split; [reflexivity || assumption|]). lia.
Qed.

Lemma from_hdf5_validation_witness : valid_table overrun_table.
Proof.
  apply (from_hdf5_validation ∅ (Group overrun_group)).
  apply overrun_group_loads.
Defined.

(** A group whose only window has the pole range [0, 5) in a one-pole table
    is loaded without complaint. *)
Lemma from_hdf5_accepts_pole_range_overrun :
  from_hdf5 ∅ (Group overrun_group) = Ok overrun_table ∧
  ¬ pole_range_in_bounds overrun_table 0.
Proof.
  split; [apply overrun_group_loads|].
  intros H. specialize (H 1%Z 5%Z eq_refl eq_refl 1%Z ltac:(lia)).
  unfold n_poles in H; simpl in H. lia.
Qed.

(** C9 (as amended). Given a file name, [from_hdf5] fails with [ValueError]
    when the version stored in the file differs from [WMP_VERSION]; given a
    group, its result does not depend on any file, no version is read. *)
Theorem from_hdf5_version_mismatch (fs : gmap string h5file) (path : string)
    (h5 : h5file) (v : string) :
  fs !! path = Some h5 → read_version h5 = Ok v → v ≠ WMP_VERSION →
  from_hdf5 fs (Filename path) = Raise ValueError ∧
  ∀ group, from_hdf5 fs (Group group) = from_hdf5 ∅ (Group group).
Proof.
  intros Hfile Hv Hne. split; [|reflexivity].
  unfold from_hdf5, open_group.
  rewrite Hfile, Hv; run. rewrite decide_True by exact Hne. reflexivity.
Qed.

Lemma from_hdf5_version_mismatch_witness :
  from_hdf5 sample_fs (Filename "old.h5") = Raise ValueError.
Proof.
  apply (from_hdf5_version_mismatch sample_fs "old.h5" old_file "v0.9").
  - reflexivity.
  - reflexivity.
  - discriminate.
Defined.

(** Given the open group ['nuclide'] of the same file, [from_hdf5] returns a
    table: no version is looked at on that path. *)
Lemma from_hdf5_group_skips_version_check :
  sample_fs !! "old.h5" = Some old_file ∧
  read_version old_file = Ok "v0.9" ∧ "v0.9" ≠ WMP_VERSION ∧
  nuclide old_file = Some (one_window_group 1 9 1 2 3 4 5 6) ∧
  from_hdf5 sample_fs (Group (one_window_group 1 9 1 2 3 4 5 6))
  = Ok (one_window_table 1 9 1 2 3 4 5 6).
Proof.
  split; [reflexivity|]. split; [reflexivity|]. split; [discriminate|].
  split; [reflexivity|]. apply one_window_group_loads; lra.
Qed.

(** ** The window locator *)

Lemma Zfloor_lt_iff (x : R) (n : Z) : (Zfloor x < n)%Z ↔ x < IZR n.
Proof.
  pose proof (Zfloor_bound x) as [Hlo Hhi]. split; intros H.
  - assert (Zfloor x + 1 ≤ n)%Z as Hle by lia.
    apply IZR_le in Hle. rewrite plus_IZR in Hle. lra.
  - apply lt_IZR. lra.
Qed.

(** Inside the energy range the locator returns, with a non-negative
    index; the index is below [n] exactly when [sqrt(E)] is less than [n]
    window widths above [sqrt(start_E)]. *)
Lemma locate_in_range (t : WindowedMultipole) (E : R) :
  0 < spacing t → 0 <= start_E t → start_E t <= E →
  ∃ i, locate t (sqrt E) = Ok i ∧ (0 ≤ i)%Z ∧
       ∀ n : nat, (i < Z.of_nat n)%Z ↔
                  sqrt E - sqrt (start_E t) < INR n * spacing t.
Proof.
  intros Hsp Hs HE. unfold locate.
  rewrite py_sqrt_Ok by exact Hs; run.
  rewrite py_div_Ok by lra; run.
  set (q := (sqrt E - sqrt (start_E t)) / spacing t).
  assert (0 <= sqrt E - sqrt (start_E t)) as Hd.
  { pose proof (sqrt_le_1_alt _ _ HE). lra. }
  assert (0 <= q) as Hq.
  { unfold q, Rdiv. pose proof (Rinv_0_lt_compat _ Hsp). nra. }
  exists (Zfloor q). split; [reflexivity|]. split.
  - apply Zfloor_lub. simpl. exact Hq.
  - intros n. rewrite Zfloor_lt_iff, <- INR_IZR_INZ. unfold q.
    split; intros H.
    + apply (Rmult_lt_compat_r _ _ _ Hsp) in H.
      unfold Rdiv in H. rewrite Rmult_assoc, Rinv_l in H by lra. lra.
    + apply (Rmult_lt_reg_r (spacing t)); [exact Hsp|].
      unfold Rdiv. rewrite Rmult_assoc, Rinv_l by lra. lra.
Qed.

Lemma locate_one_window (e0 sp a b c a' b' c' : R) (sqrtE : R) :
  0 <= e0 → sp ≠ 0 →
  locate (one_window_table e0 sp a b c a' b' c') sqrtE
  = Ok (Zfloor ((sqrtE - sqrt e0) / sp)).
Proof.
  intros He0 Hsp. unfold locate; simpl.
  rewrite py_sqrt_Ok by exact He0; run. rewrite py_div_Ok by exact Hsp.
  reflexivity.
Qed.

(** Accesses within the bounds of the arrays of a loaded table. *)
Lemma getitem_nonneg {A : Type} (a : ndarray A) (idx : list Z) :
  wf_ndarray a →
  Forall2 (λ n i, 0 ≤ i < Z.of_nat n)%Z (shape a) idx →
  ∃ x, getitem a idx = Ok x.
Proof.
  intros Hwf Hidx. apply getitem_in_range; [exact Hwf|].
  eapply Forall2_impl; [exact Hidx|]. intros n i Hi; simpl in Hi; lia.
Qed.

Lemma getitem_1d_Ok {A : Type} (a : ndarray A) (n : nat) (i : Z) (x : A) :
  shape a = [n] → (0 ≤ i)%Z → getitem a [i] = Ok x →
  buffer a !! Z.to_nat i = Some x.
Proof.
  intros Hsh Hi; unfold getitem; rewrite Hsh; cbn [offset].
  intros H; apply bind_Ok in H as (o & Ho & H).
  apply bind_Ok in Ho as (k & Hk & [= <-]).
  unfold norm_index in Hk. repeat case_decide; try discriminate; try lia.
  injection Hk as <-. simpl in H.
  destruct (buffer a !! Z.to_nat i); [injection H as <-; reflexivity | discriminate].
Qed.

Lemma window_arrays_in_bounds (t : WindowedMultipole) (i : Z) :
  valid_table t → wf_table t → (0 ≤ i < Z.of_nat (n_windows t))%Z →
  (∃ ws, getitem (w_start t) [i] = Ok ws) ∧
  (∃ we, getitem (w_end t) [i] = Ok we) ∧
  (∃ b, getitem (broaden_poly t) [i] = Ok b) ∧
  (∀ i_poly channel,
     (0 ≤ i_poly < Z.of_nat (n_terms t))%Z →
     (0 ≤ channel < Z.of_nat (n_channels t))%Z →
     ∃ x, getitem (curvefit t) [i; i_poly; channel] = Ok x).
Proof.
  intros [_ _ _ _ _ (nw & nt & nc & Hws & Hwe & Hbp & Hcf & _)]
         (_ & Wws & Wwe & Wbp & Wcf) Hi.
  unfold n_windows, n_terms, n_channels in *.
  rewrite Hws in Hi; simpl in Hi. rewrite Hcf; simpl.
  repeat split.
  - apply getitem_nonneg; [exact Wws|]. rewrite Hws. repeat constructor; lia.
  - apply getitem_nonneg; [exact Wwe|]. rewrite Hwe. repeat constructor; lia.
  - apply getitem_nonneg; [exact Wbp|]. rewrite Hbp. repeat constructor; lia.
  - intros i_poly channel Hp Hc.
    apply getitem_nonneg; [exact Wcf|]. rewrite Hcf. repeat constructor; lia.
Qed.


Lemma one_window_table_valid (e0 sp a b c a' b' c' : R) :
  0 <= e0 → 0 < sp →
  valid_table (one_window_table e0 sp a b c a' b' c') ∧
  wf_table (one_window_table e0 sp a b c a' b' c').
Proof.
  intros He0 Hsp. split.
  - constructor; simpl; try lra.
    + exists 0%nat, 3%nat; auto.
    + exists 1%nat, 3%nat, 2%nat. repeat (split; [reflexivity|]). lia.
  - repeat split.
Qed.



(** ** Evaluation of the one-window table at 0 K *)

Lemma sqrtkT_zero : py_sqrt (K_BOLTZMANN * 0) = Ok 0.
Proof. rewrite Rmult_0_r, py_sqrt_Ok by lra. rewrite sqrt_0; reflexivity. Qed.

(** In its window the table evaluates to the plain curvefit sums, in the
    order the loop adds them. *)
Lemma evaluate_one_window_0K (erf : R → R) (wofz : C → C)
    (e0 sp a b c a' b' c' E : R) :
  0 <= e0 <= E → 0 < E <= 100 → 0 < sp →
  Zfloor ((sqrt E - sqrt e0) / sp) = 0%Z →
  _evaluate erf wofz (one_window_table e0 sp a b c a' b' c') E 0
  = Ok (0 + a * (1 / E) + b * (1 / E * sqrt E) + c * (1 / E * sqrt E * sqrt E),
        0 + a' * (1 / E) + b' * (1 / E * sqrt E) + c' * (1 / E * sqrt E * sqrt E),
        0).
Proof.
  intros He0 HE Hsp Hw. unfold _evaluate. cbn [start_E end_E one_window_table].
  destruct (Rlt_dec E e0); [lra|]. destruct (Rlt_dec 100 E); [lra|].
  rewrite sqrtkT_zero; run.
  rewrite py_sqrt_Ok by lra; run.
  rewrite py_div_Ok by lra; run.
  rewrite locate_one_window by lra; run. rewrite Hw.
  change (getitem (w_start _) [0%Z]) with (Ok 1%Z); run.
  change (getitem (w_end _) [0%Z]) with (Ok 0%Z); run.
  unfold curvefit_sum, pole_sum.
  destruct (Req_dec_T 0 0) as [_|Hne]; [|contradiction]. run.
  reflexivity.
Qed.

(** Past the last window the evaluation stops at
    [self.w_start[i_window]]. *)
Lemma evaluate_window_past (erf : R → R) (wofz : C → C)
    (t : WindowedMultipole) (n : nat) (E T : R) :
  shape (w_start t) = [n] →
  0 <= start_E t <= E → 0 < E <= end_E t → spacing t ≠ 0 → 0 <= T →
  (Z.of_nat n ≤ Zfloor ((sqrt E - sqrt (start_E t)) / spacing t))%Z →
  _evaluate erf wofz t E T = Raise IndexError.
Proof.
  intros Hsh He0 HE Hsp HT Hw. unfold _evaluate.
  destruct (Rlt_dec E (start_E t)); [lra|].
  destruct (Rlt_dec (end_E t) E); [lra|].
  rewrite (py_sqrt_Ok (K_BOLTZMANN * T)) by (pose proof K_BOLTZMANN_pos; nra); run.
  rewrite py_sqrt_Ok by lra; run.
  rewrite py_div_Ok by lra; run.
  unfold locate. rewrite py_sqrt_Ok by lra; run.
  rewrite py_div_Ok by exact Hsp; run.
  rewrite (getitem_1d_out (w_start t) n) by assumption.
  reflexivity.
Qed.

(** C7 (as amended). Table over [1, 100] eV, one window with an empty pole
    range and the three-term curvefit [a, b, c] for the total cross section;
    the window is wider than 4 in sqrt(E)-space (9 makes it span the whole
    range), so that 25 eV falls in it.  At 25 eV and 0 K the total is
    [a/25 + b/5 + c] (and the absorption [a'/25 + b'/5 + c'], the fission
    0). *)
Theorem evaluate_baseline_scenario (erf : R → R) (wofz : C → C)
    (sp a b c a' b' c' : R) :
  4 < sp →
  _evaluate erf wofz (one_window_table 1 sp a b c a' b' c') 25 0
  = Ok (a / 25 + b / 5 + c, a' / 25 + b' / 5 + c', 0).
Proof.
  intros Hsp. rewrite evaluate_one_window_0K; try lra.
  - rewrite sqrt_25. apply f_equal.
    apply f_equal2; [apply f_equal2|]; try reflexivity; field.
  - rewrite sqrt_25, sqrt_1. apply Zfloor_eq. simpl.
    pose proof (Rinv_0_lt_compat sp ltac:(lra)) as Hinv.
    assert (sp * / sp = 1) as Hone by (apply Rinv_r; lra).
    unfold Rdiv. split; nra.
Qed.

Lemma evaluate_baseline_scenario_witness :
  _evaluate erf0 wofz0 (one_window_table 1 9 1 2 3 4 5 6) 25 0
  = Ok (1 / 25 + 2 / 5 + 3, 4 / 25 + 5 / 5 + 6, 0).
Proof.
  apply (evaluate_baseline_scenario erf0 wofz0 9 1 2 3 4 5 6). lra.
Defined.

(** In binary64 the sum the loop accumulates need not be the correctly
    rounded [a/25 + b/5 + c]: for [a, b, c = 0, 3, 0] the loop gives
    [3 * (0.04 * 5)], one unit in the last place above [3/5]. *)
Lemma baseline_scenario_binary64 :
  PrimFloat.eqb Binary64.scenario_total Binary64.scenario_expected = false.
Proof. reflexivity. Qed.

(** With the spacing 1.0 of the scenario, 25 eV lies in the fifth window of
    a table that has one: the evaluation raises. *)
Lemma baseline_scenario_spacing_1_raises :
  from_hdf5 ∅ (Group (one_window_group 1 1 1 2 3 4 5 6))
  = Ok (one_window_table 1 1 1 2 3 4 5 6) ∧
  _evaluate erf0 wofz0 (one_window_table 1 1 1 2 3 4 5 6) 25 0
  = Raise IndexError.
Proof.
  split; [apply one_window_group_loads; lra|].
  apply (evaluate_window_past _ _ _ 1); simpl; try lra; [reflexivity|].
  rewrite sqrt_25, sqrt_1.
  replace ((5 - 1) / 1) with (IZR 4) by (simpl; lra). rewrite ZfloorZ. lia.
Qed.

(** ** Evaluations that raise *)




(** ** The fission channel *)

Lemma broadened_term_fission (t : WindowedMultipole) (i_window : Z)
    (bp : ndarray R) (i_poly : Z) (s s' : xs) :
  fissionable t = Ok false → s.2 = 0 →
  broadened_term t i_window bp s i_poly = Ok s' → s'.2 = 0.
Proof.
  intros Hfis Hs. destruct s as [[sig_t sig_a] sig_f]; simpl in Hs; subst sig_f.
  unfold broadened_term. intros H.
  do 4 (apply bind_Ok in H as (? & _ & H)).
  apply bind_Ok in H as (fis & Hf & H).
  rewrite Hfis in Hf; injection Hf as <-. injection H as <-. reflexivity.
Qed.

Lemma plain_term_fission (t : WindowedMultipole) (i_window : Z) (sqrtE : R)
    (i_poly : Z) (st st' : xs * R) :
  fissionable t = Ok false → st.1.2 = 0 →
  plain_term t i_window sqrtE st i_poly = Ok st' → st'.1.2 = 0.
Proof.
  intros Hfis Hs. destruct st as [[[sig_t sig_a] sig_f] temp]; simpl in Hs; subst sig_f.
  unfold plain_term. intros H.
  do 2 (apply bind_Ok in H as (? & _ & H)).
  apply bind_Ok in H as (fis & Hf & H).
  rewrite Hfis in Hf; injection Hf as <-.
  apply bind_Ok in H as (sig_f & [= <-] & H). injection H as <-. reflexivity.
Qed.

Lemma add_pole_fission (t : WindowedMultipole) (c : C) (i_pole : Z) (s s' : xs) :
  fissionable t = Ok false → s.2 = 0 →
  add_pole t c s i_pole = Ok s' → s'.2 = 0.
Proof.
  intros Hfis Hs. destruct s as [[sig_t sig_a] sig_f]; simpl in Hs; subst sig_f.
  unfold add_pole. intros H.
  do 2 (apply bind_Ok in H as (? & _ & H)).
  apply bind_Ok in H as (fis & Hf & H).
  rewrite Hfis in Hf; injection Hf as <-. injection H as <-. reflexivity.
Qed.

Lemma curvefit_sum_fission (erf : R → R) (t : WindowedMultipole)
    (E sqrtkT sqrtE invE : R) (i_window : Z) (sig : xs) :
  fissionable t = Ok false →
  curvefit_sum erf t E sqrtkT sqrtE invE i_window = Ok sig → sig.2 = 0.
Proof.
  intros Hfis. unfold curvefit_sum. intros H.
  apply bind_Ok in H as ([] & _ & H).
  - apply bind_Ok in H as (dopp & _ & H). apply bind_Ok in H as (n & _ & H).
    apply bind_Ok in H as (bp & _ & H). apply bind_Ok in H as (n' & _ & H).
    eapply (for_each_inv _ (λ s : xs, s.2 = 0)); [| |exact H]; [|reflexivity].
    intros x s s' Hs Hbody. eapply broadened_term_fission; eauto.
  - apply bind_Ok in H as (n & _ & H). apply bind_Ok in H as (st & H & [= <-]).
    eapply (for_each_inv _ (λ st : xs * R, st.1.2 = 0)); [| |exact H]; [|reflexivity].
    intros x s s' Hs Hbody. eapply plain_term_fission; eauto.
Qed.

Lemma pole_sum_fission (wofz : C → C) (t : WindowedMultipole)
    (E sqrtkT sqrtE invE : R) (startw endw : Z) (sig sig' : xs) :
  fissionable t = Ok false → sig.2 = 0 →
  pole_sum wofz t E sqrtkT sqrtE invE startw endw sig = Ok sig' → sig'.2 = 0.
Proof.
  intros Hfis Hsig. unfold pole_sum. destruct (Req_dec_T sqrtkT 0); intros H.
  - eapply (for_each_inv _ (λ s : xs, s.2 = 0)); [| |exact H]; [|exact Hsig].
    intros x s s' Hs Hbody. unfold pole_term_0K in Hbody.
    apply bind_Ok in Hbody as (ea & _ & Hbody). eapply add_pole_fission; eauto.
  - apply bind_Ok in H as (dopp & _ & H).
    eapply (for_each_inv _ (λ s : xs, s.2 = 0)); [| |exact H]; [|exact Hsig].
    intros x s s' Hs Hbody. unfold pole_term_T in Hbody.
    apply bind_Ok in Hbody as (ea & _ & Hbody). eapply add_pole_fission; eauto.
Qed.

(** ** Evaluations that return *)

Lemma fit_order_valid (t : WindowedMultipole) :
  valid_table t →
  fit_order t = Ok (Z.of_nat (n_terms t) - 1)%Z ∧ (3 ≤ n_terms t)%nat.
Proof.
  intros [_ _ _ _ _ (nw & nt & nc & _ & _ & _ & Hcf & _ & Hnt)].
  unfold fit_order, shape_at, n_terms. rewrite Hcf; simpl. auto.
Qed.

Lemma fissionable_valid (t : WindowedMultipole) :
  valid_table t → fissionable t = Ok (bool_decide (n_columns t = 4%nat)).
Proof.
  intros [_ _ _ _ (np & nc & Hdata & _) _].
  unfold fissionable, shape_at, n_columns. rewrite Hdata; reflexivity.
Qed.

Lemma n_channels_valid (t : WindowedMultipole) :
  valid_table t → (2 ≤ n_channels t ≤ 3)%nat.
Proof.
  intros [_ _ _ _ _ (nw & nt & nc & _ & _ & _ & Hcf & Hnc & _)].
  unfold n_channels. rewrite Hcf; simpl. lia.
Qed.

(** Accesses to the poles within their bounds. *)
Lemma data_in_bounds (t : WindowedMultipole) (i_pole column : Z) :
  valid_table t → wf_table t →
  (0 ≤ i_pole < Z.of_nat (n_poles t))%Z →
  (0 ≤ column < Z.of_nat (n_columns t))%Z →
  ∃ x, getitem (data t) [i_pole; column] = Ok x.
Proof.
  intros [_ _ _ _ (np & nc & Hdata & _) _] (Wd & _) Hi Hc.
  unfold n_poles, n_columns in *. rewrite Hdata in Hi, Hc; simpl in Hi, Hc.
  apply getitem_nonneg; [exact Wd|]. rewrite Hdata. repeat constructor; lia.
Qed.

Lemma n_columns_valid (t : WindowedMultipole) :
  valid_table t → (n_columns t = 3 ∨ n_columns t = 4)%nat.
Proof.
  intros [_ _ _ _ (np & nc & Hdata & Hnc) _].
  unfold n_columns. rewrite Hdata; simpl. exact Hnc.
Qed.

Section Returns.

Context (erf : R → R) (wofz : C → C) (t : WindowedMultipole).
Context (Hvalid : valid_table t) (Hwf : wf_table t).
(** A table with a fission residue has a fission curvefit. *)
Context (Hchannels : n_columns t = 4%nat → n_channels t = 3%nat).

Lemma plain_term_returns (i_window i_poly : Z) (sqrtE : R) (st : xs * R) :
  (0 ≤ i_window < Z.of_nat (n_windows t))%Z →
  (0 ≤ i_poly < Z.of_nat (n_terms t))%Z →
  ∃ st', plain_term t i_window sqrtE st i_poly = Ok st'.
Proof.
  intros Hw Hp. destruct st as [[[sig_t sig_a] sig_f] temp].
  destruct (window_arrays_in_bounds t i_window Hvalid Hwf Hw) as (_ & _ & _ & Hcf).
  pose proof (n_channels_valid t Hvalid) as Hnc.
  unfold plain_term.
  destruct (Hcf i_poly _FIT_T Hp) as (ct & ->); [unfold _FIT_T; lia|]. run.
  destruct (Hcf i_poly _FIT_A Hp) as (ca & ->); [unfold _FIT_A; lia|]. run.
  rewrite (fissionable_valid t Hvalid); run.
  case_bool_decide as Hfis; [|run; eauto].
  destruct (Hcf i_poly _FIT_F Hp) as (cf & ->);
    [unfold _FIT_F; rewrite (Hchannels Hfis); lia|].
  run. eauto.
Qed.

Lemma broadened_term_returns (i_window i_poly : Z) (bp : ndarray R) (s : xs) :
  (0 ≤ i_window < Z.of_nat (n_windows t))%Z →
  (0 ≤ i_poly < Z.of_nat (n_terms t))%Z →
  shape bp = [n_terms t] → length (buffer bp) = n_terms t →
  ∃ s', broadened_term t i_window bp s i_poly = Ok s'.
Proof.
  intros Hw Hp Hsh Hlen. destruct s as [[sig_t sig_a] sig_f].
  destruct (window_arrays_in_bounds t i_window Hvalid Hwf Hw) as (_ & _ & _ & Hcf).
  pose proof (n_channels_valid t Hvalid) as Hnc.
  destruct (lookup_lt_is_Some_2 (buffer bp) (Z.to_nat i_poly) ltac:(lia)) as (b & Hb).
  assert (getitem bp [i_poly] = Ok b) as Hbp
    by (apply (getitem_1d bp (n_terms t)); [exact Hsh | lia | exact Hb]).
  unfold broadened_term.
  rewrite Hbp.
  destruct (Hcf i_poly _FIT_T Hp) as (ct & ->); [unfold _FIT_T; lia|]. run.
  destruct (Hcf i_poly _FIT_A Hp) as (ca & ->); [unfold _FIT_A; lia|]. run.
  rewrite (fissionable_valid t Hvalid); run.
  case_bool_decide as Hfis; [|eauto].
  destruct (Hcf i_poly _FIT_F Hp) as (cf & ->);
    [unfold _FIT_F; rewrite (Hchannels Hfis); lia|].
  run. eauto.
Qed.

Lemma add_pole_returns (c : C) (s : xs) (i_pole : Z) :
  (0 ≤ i_pole < Z.of_nat (n_poles t))%Z →
  ∃ s', add_pole t c s i_pole = Ok s'.
Proof.
  intros Hp. destruct s as [[sig_t sig_a] sig_f].
  pose proof (n_columns_valid t Hvalid) as Hnc.
  unfold add_pole.
  destruct (data_in_bounds t i_pole _MP_RT Hvalid Hwf Hp) as (rt & ->);
    [unfold _MP_RT; lia|]. run.
  destruct (data_in_bounds t i_pole _MP_RA Hvalid Hwf Hp) as (ra & ->);
    [unfold _MP_RA; lia|]. run.
  rewrite (fissionable_valid t Hvalid); run.
  case_bool_decide as Hfis; [|eauto].
  destruct (data_in_bounds t i_pole _MP_RF Hvalid Hwf Hp) as (rf & ->);
    [unfold _MP_RF; lia|]. run. eauto.
Qed.

Lemma plain_sum_returns (i_window : Z) (sqrtE invE : R) :
  (0 ≤ i_window < Z.of_nat (n_windows t))%Z →
  ∃ sig, (n ← fit_order t;
          st ← for_each (plain_term t i_window sqrtE)
                        (py_range 0 (n + 1)) (0, 0, 0, invE);
          Ok (fst st)) = Ok sig.
Proof.
  intros Hw. destruct (fit_order_valid t Hvalid) as [-> Hnt]. run.
  unfold py_range.
  destruct (for_each_range (plain_term t i_window sqrtE) (λ _ _, True)
              0 (Z.of_nat (n_terms t) - 1 + 1 - 0) (0, 0, 0, invE) I)
    as (st & -> & _).
  - intros i st Hi _. destruct (plain_term_returns i_window i sqrtE st Hw)
      as (st' & ->); [lia | eauto].
  - run. eauto.
Qed.

Lemma curvefit_sum_returns (E sqrtkT sqrtE invE : R) (i_window : Z) :
  0 < E → 0 <= sqrtkT →
  (0 ≤ i_window < Z.of_nat (n_windows t))%Z →
  ∃ sig, curvefit_sum erf t E sqrtkT sqrtE invE i_window = Ok sig.
Proof.
  intros HE HkT Hw. unfold curvefit_sum.
  destruct (Req_dec_T sqrtkT 0) as [Hz|Hnz]; run;
    [apply plain_sum_returns; exact Hw|].
  destruct (window_arrays_in_bounds t i_window Hvalid Hwf Hw)
    as (_ & _ & ([] & ->) & _); run; [|apply plain_sum_returns; exact Hw].
  rewrite py_div_Ok by exact Hnz; run.
  destruct (fit_order_valid t Hvalid) as [-> Hnt]. run.
  assert (0 < sqrtAWR t / sqrtkT) as Hdopp.
  { apply Rdiv_lt_0_compat; [apply (valid_sqrtAWR t Hvalid) | lra]. }
  destruct (broaden_wmp_polynomials_Ok erf E (sqrtAWR t / sqrtkT)
              (Z.of_nat (n_terms t) - 1 + 1) HE Hdopp ltac:(lia))
    as (bp & -> & Hsh & Hlen & _). run.
  replace (Z.to_nat (Z.of_nat (n_terms t) - 1 + 1)) with (n_terms t) in * by lia.
  unfold py_range.
  destruct (for_each_range (broadened_term t i_window bp) (λ _ _, True)
              0 (Z.of_nat (n_terms t) - 1 + 1 - 0) (0, 0, 0) I)
    as (s & -> & _); [|eauto].
  intros i s Hi _.
  destruct (broadened_term_returns i_window i bp s Hw)
    as (s' & ->); [lia | exact Hsh | exact Hlen | eauto].
Qed.

Lemma pole_sum_returns (E sqrtkT sqrtE invE : R) (startw endw : Z) (sig : xs) :
  (∀ k, (startw ≤ k < endw)%Z → (0 ≤ k < Z.of_nat (n_poles t))%Z) →
  ∃ sig', pole_sum wofz t E sqrtkT sqrtE invE startw endw sig = Ok sig'.
Proof.
  intros Hrange.
  pose proof (n_columns_valid t Hvalid) as Hnc.
  unfold pole_sum, py_range. destruct (Req_dec_T sqrtkT 0) as [Hz|Hnz].
  - destruct (for_each_range (pole_term_0K t E sqrtE) (λ _ _, True)
                startw (endw - startw) sig I) as (s & -> & _); [|eauto].
    intros k s Hk _. unfold pole_term_0K.
    destruct (data_in_bounds t k _MP_EA Hvalid Hwf) as (ea & ->);
      [apply Hrange; lia | unfold _MP_EA; lia |]. run.
    destruct (add_pole_returns
                (Cdiv (Cdiv (Copp Cj) (Csub ea (RtoC sqrtE))) (RtoC E)) s k)
      as (s' & ->); [apply Hrange; lia | eauto].
  - rewrite py_div_Ok by exact Hnz; run.
    destruct (for_each_range
                (pole_term_T wofz t sqrtE invE (sqrtAWR t / sqrtkT)) (λ _ _, True)
                startw (endw - startw) sig I) as (s & -> & _); [|eauto].
    intros k s Hk _. unfold pole_term_T.
    destruct (data_in_bounds t k _MP_EA Hvalid Hwf) as (ea & ->);
      [apply Hrange; lia | unfold _MP_EA; lia |]. run.
    match goal with |- context [add_pole t ?c s k] =>
      destruct (add_pole_returns c s k) as (s' & ->); [apply Hrange; lia | eauto]
    end.
Qed.

End Returns.

(** Inside the energy range, every step of [_evaluate] returns. *)
Lemma evaluate_inside_returns (erf : R → R) (wofz : C → C)
    (t : WindowedMultipole) (E T : R) :
  valid_table t → wf_table t → 0 <= T →
  start_E t <= E <= end_E t → 0 < E →
  sqrt E - sqrt (start_E t) < INR (n_windows t) * spacing t →
  (∀ i, locate t (sqrt E) = Ok i → pole_range_in_bounds t (Z.to_nat i)) →
  (n_columns t = 4%nat → n_channels t = 3%nat) →
  ∃ sig, _evaluate erf wofz t E T = Ok sig.
Proof.
  intros Hvalid Hwf HT Hin HE Hlast Hpoles Hch.
  destruct (locate_in_range t E (valid_spacing t Hvalid)
              (valid_start_E t Hvalid) (proj1 Hin)) as (i & Hi & H0 & Hlt).
  apply Hlt in Hlast. specialize (Hpoles i Hi).
  destruct (window_arrays_in_bounds t i Hvalid Hwf (conj H0 Hlast))
    as ((ws & Hws) & (we & Hwe) & _).
  destruct (valid_windows t Hvalid) as (nw & nt & nc & Sws & Swe & _).
  pose proof (getitem_1d_Ok _ _ _ _ Sws H0 Hws) as Bws.
  pose proof (getitem_1d_Ok _ _ _ _ Swe H0 Hwe) as Bwe.
  assert (0 <= K_BOLTZMANN * T) as HkT by (pose proof K_BOLTZMANN_pos; nra).
  unfold _evaluate.
  destruct (Rlt_dec E (start_E t)); [lra|].
  destruct (Rlt_dec (end_E t) E); [lra|].
  rewrite (py_sqrt_Ok (K_BOLTZMANN * T)) by exact HkT; run.
  rewrite py_sqrt_Ok by lra; run.
  rewrite py_div_Ok by lra; run.
  rewrite Hi; run. rewrite Hws; run. rewrite Hwe; run.
  destruct (curvefit_sum_returns erf t Hvalid Hwf Hch E
              (sqrt (K_BOLTZMANN * T)) (sqrt E) (1 / E) i HE
              (sqrt_pos _) (conj H0 Hlast)) as (sig & ->). run.
  apply pole_sum_returns; [exact Hvalid | exact Hwf | exact Hch |].
  intros k Hk. exact (Hpoles ws we Bws Bwe k Hk).
Qed.



(** ** The fission channel of a non-fissionable table *)

(** C6. For a table whose poles carry 3 columns, whatever [_evaluate]
    returns has a fission component equal to 0; and for a loaded table,
    [T >= 0] and an energy of [in_domain], it does return cross sections,
    with fission 0. *)
Theorem non_fissionable_fission_zero (erf : R → R) (wofz : C → C)
    (t : WindowedMultipole) (E T : R) (n : nat) :
  shape (data t) = [n; 3%nat] →
  (∀ sig_t sig_a sig_f,
     _evaluate erf wofz t E T = Ok (sig_t, sig_a, sig_f) → sig_f = 0) ∧
  (valid_table t → wf_table t → 0 <= T → in_domain t E →
   ∃ sig_t sig_a, _evaluate erf wofz t E T = Ok (sig_t, sig_a, 0)).
Proof.
  intros Hdata.
  assert (fissionable t = Ok false) as Hfis.
  { unfold fissionable, shape_at. rewrite Hdata. reflexivity. }
  assert (∀ sig_t sig_a sig_f,
            _evaluate erf wofz t E T = Ok (sig_t, sig_a, sig_f) → sig_f = 0)
    as Hzero.
  { intros sig_t sig_a sig_f. unfold _evaluate.
    destruct (Rlt_dec E (start_E t)); [intros [= _ _ <-]; reflexivity|].
    destruct (Rlt_dec (end_E t) E); [intros [= _ _ <-]; reflexivity|].
    intros H.
    apply bind_Ok in H as (sqrtkT & _ & H). apply bind_Ok in H as (sqrtE & _ & H).
    apply bind_Ok in H as (invE & _ & H). apply bind_Ok in H as (i_window & _ & H).
    apply bind_Ok in H as (ws & _ & H). apply bind_Ok in H as (endw & _ & H).
    apply bind_Ok in H as (sig & Hsig & H).
    apply curvefit_sum_fission in Hsig; [|exact Hfis].
    apply pole_sum_fission in H; [exact H | exact Hfis | exact Hsig]. }
  split; [exact Hzero|].
  intros Hvalid Hwf HT [Hout | (Hin & HE & Hlast & Hpoles & Hch)].
  - exists 0, 0. apply evaluate_outside; exact Hout.
  - destruct (evaluate_inside_returns erf wofz t E T) as ([[sig_t sig_a] sig_f] & Hev);
      try assumption.
    exists sig_t, sig_a. rewrite Hev. rewrite (Hzero _ _ _ Hev). reflexivity.
Qed.

Lemma non_fissionable_fission_zero_witness :
  ∃ sig_t sig_a,
    _evaluate erf0 wofz0 (one_window_table 1 9 1 2 3 4 5 6) 25 300
    = Ok (sig_t, sig_a, 0).
Proof.
  destruct (one_window_table_valid 1 9 1 2 3 4 5 6) as [Hv Hwf]; [lra | lra |].
  apply (non_fissionable_fission_zero erf0 wofz0
           (one_window_table 1 9 1 2 3 4 5 6) 25 300 0 eq_refl);
    [exact Hv | exact Hwf | lra |].
  right. split; [simpl; lra|]. split; [lra|]. split; [|split].
  - simpl. rewrite sqrt_25, sqrt_1. lra.
  - intros i Hi. rewrite locate_one_window in Hi by lra.
    rewrite sqrt_25, sqrt_1 in Hi. injection Hi as <-.
    replace (Zfloor ((5 - 1) / 9)) with 0%Z
      by (symmetry; apply Zfloor_eq; simpl; lra).
    intros ws we [= <-] [= <-] k Hk. lia.
  - simpl. discriminate.
Defined.

(** * Further properties *)

Ltac run_in H := cbn [mbind result_bind mret result_ret] in H.

(** ** Symmetry of the Faddeeva dispatch *)

Lemma Cconj_involutive (z : C) : Cconj (Cconj z) = z.
Proof. destruct z as [x y]; unfold Cconj, Cre, Cim; simpl. f_equal; lra. Qed.

Lemma Copp_Cconj_involutive (z : C) : Copp (Cconj (Copp (Cconj z))) = z.
Proof.
  destruct z as [x y]; unfold Copp, Cconj, Cre, Cim; simpl. f_equal; lra.
Qed.

(** X1. Off the real axis, [_faddeeva] takes conjugate arguments to values
    related by [w -> -conj(w)], whatever [wofz] is: the dispatch builds the
    reflection symmetry into the result. *)
Theorem faddeeva_conj (wofz : C → C) (z : C) :
  Cim z ≠ 0 →
  _faddeeva wofz (Cconj z) = Copp (Cconj (_faddeeva wofz z)).
Proof.
  intros Him.
  pose proof (atan2_pos (Cim z) (Cre z)) as Hz.
  pose proof (atan2_pos (Cim (Cconj z)) (Cre (Cconj z))) as Hc.
  fold (np_angle z) in Hz. fold (np_angle (Cconj z)) in Hc.
  assert (Cim (Cconj z) = - Cim z ∧ Cre (Cconj z) = Cre z) as [Ei Er]
    by (destruct z; split; reflexivity).
  rewrite Ei, Er in Hc.
  unfold _faddeeva.
  destruct (Rlt_dec 0 (np_angle z)) as [Ha|Ha];
    destruct (Rlt_dec 0 (np_angle (Cconj z))) as [Hb|Hb].
  - apply Hz in Ha. apply Hc in Hb. exfalso; lra.
  - rewrite Cconj_involutive. reflexivity.
  - rewrite Copp_Cconj_involutive. reflexivity.
  - exfalso. destruct (Rtotal_order (Cim z) 0) as [Hlt | [Heq | Hgt]].
    + apply Hb, Hc. left; lra.
    + contradiction.
    + apply Ha, Hz. left; lra.
Qed.

Lemma faddeeva_conj_witness :
  _faddeeva wofz0 (Cconj (1, 2)) = Copp (Cconj (_faddeeva wofz0 (1, 2))).
Proof. apply faddeeva_conj. simpl. lra. Defined.

(** ** Where the broadening kernel raises *)






(** ** Saturation of the broadening kernel *)





(** ** The extent of a window *)





(** ** What the loader accepts *)

Lemma dataset_Some (group : gmap string npvalue) (name : string) (v : npvalue) :
  dataset group name = Ok v ↔ group !! name = Some v.
Proof.
  unfold dataset. destruct (group !! name); split; intros [=]; subst; reflexivity.
Qed.

Lemma set_positive_iff (v : npvalue) (x : R) :
  set_spacing v = Ok x ↔ check_type_Real v = Ok x ∧ 0 < x.
Proof.
  unfold set_spacing. split.
  - intros H. apply bind_Ok in H as (y & Hy & H).
    apply bind_Ok in H as ([] & Hc & [= <-]).
    split; [exact Hy | apply check_greater_than_strict; exact Hc].
  - intros [-> Hx]; run.
    rewrite (proj2 (check_greater_than_strict x) Hx). reflexivity.
Qed.

Lemma set_start_E_iff (v : npvalue) (x : R) :
  set_start_E v = Ok x ↔ check_type_Real v = Ok x ∧ 0 <= x.
Proof.
  unfold set_start_E. split.
  - intros H. apply bind_Ok in H as (y & Hy & H).
    apply bind_Ok in H as ([] & Hc & [= <-]).
    split; [exact Hy | apply check_greater_than_large; exact Hc].
  - intros [-> Hx]; run.
    rewrite (proj2 (check_greater_than_large x) Hx). reflexivity.
Qed.

Lemma set_data_accepts (a : ndarray C) (n m : nat) :
  shape a = [n; m] → (m = 3 ∨ m = 4)%nat → set_data (NpArrC a) = Ok a.
Proof.
  intros Hsh Hm. unfold set_data, check_type_ndarray; simpl. rewrite Hsh; run.
  rewrite decide_False by (simpl; lia).
  rewrite decide_True by (simpl; destruct Hm as [-> | ->]; auto).
  reflexivity.
Qed.

Lemma set_w_start_accepts (a : ndarray Z) (n : nat) :
  shape a = [n] → set_w_start (NpArrI a) = Ok a ∧ set_w_end (NpArrI a) = Ok a.
Proof.
  intros Hsh. unfold set_w_start, set_w_end, check_type_ndarray; simpl.
  rewrite Hsh; run. rewrite decide_False by (simpl; lia). auto.
Qed.

Lemma set_broaden_poly_accepts (a : ndarray bool) (n : nat) :
  shape a = [n] → set_broaden_poly (NpArrB a) = Ok a.
Proof.
  intros Hsh. unfold set_broaden_poly, check_type_ndarray; simpl.
  rewrite Hsh; run. rewrite decide_False by (simpl; lia). reflexivity.
Qed.

Lemma set_curvefit_accepts (a : ndarray R) (n0 n1 n2 : nat) :
  shape a = [n0; n1; n2] → (n2 = 2 ∨ n2 = 3)%nat →
  set_curvefit (NpArrF a) = Ok a.
Proof.
  intros Hsh Hm. unfold set_curvefit, check_type_ndarray; simpl. rewrite Hsh; run.
  rewrite decide_False by (simpl; lia).
  rewrite decide_True by (simpl; destruct Hm as [-> | ->]; auto).
  reflexivity.
Qed.

Lemma shape0_equal {A B : Type} (a : ndarray A) (b : ndarray B)
    (n : nat) (sa sb : list nat) :
  shape a = n :: sa → shape b = n :: sb → shape0_differs a b = Ok false.
Proof.
  intros Ha Hb. unfold shape0_differs, shape_at. rewrite Ha, Hb; simpl.
  rewrite bool_decide_eq_false_2 by auto. reflexivity.
Qed.

(** The checks of a loaded table, read off the inversion of [from_hdf5]. *)
Lemma checks_valid_table (t : WindowedMultipole)
    (v1 v2 v3 v4 v5 v6 v7 v8 v9 : npvalue) (order : Z) :
  set_spacing v1 = Ok (spacing t) → set_sqrtAWR v2 = Ok (sqrtAWR t) →
  set_start_E v3 = Ok (start_E t) → set_end_E v4 = Ok (end_E t) →
  set_data v5 = Ok (data t) → set_w_start v6 = Ok (w_start t) →
  set_w_end v7 = Ok (w_end t) → set_broaden_poly v8 = Ok (broaden_poly t) →
  set_curvefit v9 = Ok (curvefit t) →
  shape0_differs (w_end t) (w_start t) = Ok false →
  shape0_differs (broaden_poly t) (w_start t) = Ok false →
  shape0_differs (curvefit t) (w_start t) = Ok false →
  fit_order t = Ok order → (2 ≤ order)%Z →
  valid_table t.
Proof.
  intros H1 H2 H3 H4 H5 H6 H7 H8 H9 Hd1 Hd2 Hd3 Horder Hge.
  apply set_data_Ok in H5 as (_ & Hdata).
  apply set_w_start_Ok in H6 as (_ & nw & Hws).
  apply set_w_end_Ok in H7 as (_ & nw' & Hwe).
  apply set_broaden_poly_Ok in H8 as (_ & nw'' & Hbp).
  apply set_curvefit_Ok in H9 as (_ & n0 & n1 & n2 & Hcf & Hch).
  apply shape0_same in Hd1, Hd2, Hd3.
  rewrite Hws, ?Hwe, ?Hbp, ?Hcf in *. simpl in *.
  injection Hd1 as ->. injection Hd2 as ->. injection Hd3 as ->.
  unfold fit_order, shape_at in Horder. rewrite Hcf in Horder; simpl in Horder.
  injection Horder as <-.
  constructor; eauto using set_spacing_Ok, set_sqrtAWR_Ok, set_start_E_Ok, set_end_E_Ok.
  exists nw, n1, n2. repeat (split; [reflexivity || assumption|]). lia.
Qed.

Lemma loadable_loads (fs : gmap string h5file) (group : gmap string npvalue)
    (t : WindowedMultipole) :
  loadable group t → from_hdf5 fs (Group group) = Ok t.
Proof.
  intros [(v1 & G1 & C1) (v2 & G2 & C2) (v3 & G3 & C3) (v4 & G4 & C4)
          G5 G6 G7 (v8 & G8 & C8) G9 Hvalid].
  destruct Hvalid as [Hsp Haw Hs He (np & nc & Sd & Hnc)
                      (nw & nt & nch & Sws & Swe & Sbp & Scf & Hnch & Hnt)].
  apply dataset_Some in G1, G2, G3, G4, G5, G6, G7, G8, G9.
  unfold from_hdf5, open_group; run.
  rewrite G1; run. rewrite (proj2 (set_positive_iff _ _) (conj C1 Hsp)); run.
  rewrite G2; run.
  unfold set_sqrtAWR. fold (set_spacing v2).
  rewrite (proj2 (set_positive_iff _ _) (conj C2 Haw)); run.
  rewrite G3; run. rewrite (proj2 (set_start_E_iff _ _) (conj C3 Hs)); run.
  rewrite G4; run.
  unfold set_end_E. fold (set_spacing v4).
  rewrite (proj2 (set_positive_iff _ _) (conj C4 He)); run.
  rewrite G5; run. rewrite (set_data_accepts _ _ _ Sd Hnc); run.
  rewrite G6; run. rewrite (proj1 (set_w_start_accepts _ _ Sws)); run.
  rewrite G7; run. rewrite (proj2 (set_w_start_accepts _ _ Swe)); run.
  rewrite (shape0_equal (w_end t) (w_start t) _ _ _ Swe Sws); run.
  rewrite G8; run. rewrite C8. rewrite (set_broaden_poly_accepts _ _ Sbp); run.
  rewrite (shape0_equal (broaden_poly t) (w_start t) _ _ _ Sbp Sws); run.
  rewrite G9; run. rewrite (set_curvefit_accepts _ _ _ _ Scf Hnch); run.
  rewrite (shape0_equal (curvefit t) (w_start t) _ _ _ Scf Sws); run.
  unfold fit_order, shape_at; cbn [curvefit]. rewrite Scf; simpl.
  rewrite decide_False by lia.
  destruct t; reflexivity.
Qed.

(** X5. A group is loaded into the table [t] exactly when it holds the nine
    datasets of [t], of the kinds [loadable] lists, and [t] passes the
    checks of [valid_table]; nothing else is looked at, neither the contents
    of the window arrays nor any other dataset of the group. *)
Theorem from_hdf5_group_iff (fs : gmap string h5file)
    (group : gmap string npvalue) (t : WindowedMultipole) :
  from_hdf5 fs (Group group) = Ok t ↔ loadable group t.
Proof.
  split; [|apply loadable_loads].
  intros H. apply from_hdf5_Ok in H
    as (g & v1 & v2 & v3 & v4 & v5 & v6 & v7 & v8 & v9 & [= <-] & (D1 & H1)
        & (D2 & H2) & (D3 & H3) & (D4 & H4) & (D5 & H5) & (D6 & H6) & (D7 & H7)
        & (D8 & H8) & (D9 & H9) & Hd1 & Hd2 & Hd3 & order & Horder & Hge).
  apply dataset_Some in D1, D2, D3, D4, D5, D6, D7, D8, D9.
  pose proof (checks_valid_table t _ _ _ _ _ _ _ _ _ _ H1 H2 H3 H4 H5 H6 H7 H8
                H9 Hd1 Hd2 Hd3 Horder Hge) as Hvalid.
  apply set_positive_iff in H1 as [C1 _].
  unfold set_sqrtAWR in H2. fold (set_spacing v2) in H2.
  apply set_positive_iff in H2 as [C2 _].
  apply set_start_E_iff in H3 as [C3 _].
  unfold set_end_E in H4. fold (set_spacing v4) in H4.
  apply set_positive_iff in H4 as [C4 _].
  apply set_data_Ok in H5 as [-> _]. apply set_w_start_Ok in H6 as [-> _].
  apply set_w_end_Ok in H7 as [-> _]. apply set_broaden_poly_Ok in H8 as [C8 _].
  apply set_curvefit_Ok in H9 as [-> _].
  constructor; eauto.
Qed.

Lemma from_hdf5_group_iff_witness : loadable overrun_group overrun_table.
Proof.
  apply (from_hdf5_group_iff ∅ overrun_group overrun_table).
  apply overrun_group_loads.
Defined.

(** Loading by file name is the version test followed by loading the
    group ['nuclide'] of the file: a table is returned exactly when the file
    exists, its version reads as [WMP_VERSION], it has the group, and the
    group loads into that table. *)
Theorem from_hdf5_filename_iff (fs : gmap string h5file) (path : string)
    (t : WindowedMultipole) :
  from_hdf5 fs (Filename path) = Ok t ↔
  ∃ h5 group, fs !! path = Some h5 ∧ read_version h5 = Ok WMP_VERSION ∧
              nuclide h5 = Some group ∧ from_hdf5 fs (Group group) = Ok t.
Proof.
  unfold from_hdf5 at 1, open_group. split.
  - intros H. destruct (fs !! path) as [h5|]; [|discriminate].
    destruct (read_version h5) as [v|e] eqn:Hrv; [|discriminate]. run_in H.
    case_decide as Hv; [discriminate|].
    destruct (nuclide h5) as [group|] eqn:Hg; [|discriminate].
    exists h5, group. split; [reflexivity|]. split; [|split].
    + rewrite Hrv. f_equal.
      destruct (decide (v = WMP_VERSION)); [assumption | contradiction].
    + exact Hg.
    + exact H.
  - intros (h5 & group & -> & -> & Hg & H). run.
    rewrite decide_False by (intros Hne; apply Hne; reflexivity).
    rewrite Hg. exact H.
Qed.

Lemma from_hdf5_filename_iff_witness :
  ¬ ∃ t, from_hdf5 sample_fs (Filename "old.h5") = Ok t.
Proof.
  intros (t & Ht).
  apply (from_hdf5_filename_iff sample_fs "old.h5" t) in Ht
    as (h5 & group & Hfile & Hv & _).
  injection Hfile as <-. discriminate Hv.
Defined.

(** ** Export and reload *)

Lemma astype_bool_int8 (a : ndarray bool) :
  astype_bool (NpArrInt (amap bool_to_int8 a)) = NpArrB a.
Proof.
  destruct a as [sh buf]. unfold astype_bool, amap; simpl. do 2 f_equal.
  rewrite <- list_fmap_compose. rewrite <- (list_fmap_id buf) at 2.
  apply list_fmap_ext. intros i []; reflexivity.
Qed.

Lemma export_group_loadable (t : WindowedMultipole) :
  valid_table t → loadable (export_group t) t.
Proof.
  intros Hvalid. constructor; try reflexivity; try exact Hvalid.
  - exists (NpFloat (spacing t)). split; reflexivity.
  - exists (NpFloat (sqrtAWR t)). split; reflexivity.
  - exists (NpFloat (start_E t)). split; reflexivity.
  - exists (NpFloat (end_E t)). split; reflexivity.
  - exists (NpArrInt (amap bool_to_int8 (broaden_poly t))).
    split; [reflexivity | apply astype_bool_int8].
Qed.

(** X6. Round trip: a table written by [export_to_hdf5] is read back by
    [from_hdf5], from the file as from its group, exactly when it passes the
    checks of the loader; the export itself checks nothing. *)
Theorem export_from_hdf5_round_trip (t : WindowedMultipole)
    (fs : gmap string h5file) (path : string) :
  (from_hdf5 (export_to_hdf5 t fs path) (Filename path) = Ok t ↔ valid_table t) ∧
  (from_hdf5 fs (Group (export_group t)) = Ok t ↔ valid_table t).
Proof.
  assert (from_hdf5 fs (Group (export_group t)) = Ok t ↔ valid_table t) as Hg.
  { split.
    - intros H. apply from_hdf5_Ok in H
        as (g & v1 & v2 & v3 & v4 & v5 & v6 & v7 & v8 & v9 & _ & (_ & H1)
            & (_ & H2) & (_ & H3) & (_ & H4) & (_ & H5) & (_ & H6) & (_ & H7)
            & (_ & H8) & (_ & H9) & Hd1 & Hd2 & Hd3 & order & Horder & Hge).
      eapply checks_valid_table; eassumption.
    - intros Hvalid. apply loadable_loads, export_group_loadable, Hvalid. }
  split; [|exact Hg].
  rewrite <- Hg. unfold from_hdf5 at 1, open_group, export_to_hdf5.
  rewrite lookup_insert_eq. cbn [read_version version nuclide]; run.
  rewrite decide_False by (intros Hne; apply Hne; reflexivity).
  reflexivity.
Qed.

Lemma overrun_table_valid : valid_table overrun_table.
Proof.
  constructor; simpl; try lra.
  - exists 1%nat, 3%nat; auto.
  - exists 1%nat, 3%nat, 2%nat. repeat (split; [reflexivity|]). lia.
Qed.

Lemma export_from_hdf5_round_trip_witness :
  from_hdf5 (export_to_hdf5 overrun_table ∅ "out.h5") (Filename "out.h5")
  = Ok overrun_table.
Proof.
  destruct (export_from_hdf5_round_trip overrun_table ∅ "out.h5")
    as [[_ Hfile] _].
  apply Hfile. exact overrun_table_valid.
Defined.

(** ** What the loader reads *)

(** X7. The outcome of [from_hdf5] on a group, table or exception, depends
    on the nine datasets it reads and on nothing else: two groups that agree
    on them load alike, whatever other datasets they hold, and whatever
    files exist. *)
Theorem from_hdf5_reads_nine_datasets (fs fs' : gmap string h5file)
    (g g' : gmap string npvalue) :
  (∀ name, name ∈ dataset_names → g !! name = g' !! name) →
  from_hdf5 fs (Group g) = from_hdf5 fs' (Group g').
Proof.
  intros Hsame.
  assert (∀ name, name ∈ dataset_names → dataset g name = dataset g' name) as Hd.
  { intros name Hin. unfold dataset. rewrite (Hsame name Hin). reflexivity. }
  unfold from_hdf5, open_group; run.
  rewrite !Hd by (unfold dataset_names; set_solver).
  reflexivity.
Qed.

Lemma from_hdf5_reads_nine_datasets_witness :
  from_hdf5 ∅ (Group (<["l_value" := NpInt 0]> overrun_group))
  = Ok overrun_table.
Proof.
  rewrite (from_hdf5_reads_nine_datasets ∅ ∅ _ overrun_group).
  - apply overrun_group_loads.
  - intros name Hin. apply lookup_insert_ne.
    intros <-. apply list_elem_of_In in Hin. simpl in Hin.
    intuition discriminate.
Defined.

(** ** The exceptions of the loader *)

Lemma bind_Raise {A B : Type} (m : result A) (f : A → result B) (e : exn) :
  m ≫= f = Raise e → m = Raise e ∨ ∃ a, m = Ok a ∧ f a = Raise e.
Proof. destruct m as [a|e']; simpl; [eauto | intros [= <-]; auto]. Qed.

Lemma dataset_Raise (group : gmap string npvalue) (name : string) (e : exn) :
  dataset group name = Raise e → e = KeyError.
Proof. unfold dataset. destruct (group !! name); intros [= <-]; reflexivity. Qed.

Ltac setter_error :=
  repeat first
    [ progress (simpl in *; run)
    | case_decide
    | match goal with
      | |- context [Rle_dec ?a ?b] => destruct (Rle_dec a b)
      | |- context [Rlt_dec ?a ?b] => destruct (Rlt_dec a b)
      end ];
  try discriminate; intros [= <-]; auto.

Lemma scalar_setter_Raise (v : npvalue) (e : exn) :
  (set_spacing v = Raise e → e = TypeError ∨ e = ValueError) ∧
  (set_sqrtAWR v = Raise e → e = TypeError ∨ e = ValueError) ∧
  (set_start_E v = Raise e → e = TypeError ∨ e = ValueError) ∧
  (set_end_E v = Raise e → e = TypeError ∨ e = ValueError).
Proof.
  unfold set_spacing, set_sqrtAWR, set_start_E, set_end_E, check_greater_than.
  repeat split; destruct v; setter_error.
Qed.

Lemma array_setter_Raise (v : npvalue) (e : exn) :
  (set_data v = Raise e → e = TypeError ∨ e = ValueError) ∧
  (set_w_start v = Raise e → e = TypeError ∨ e = ValueError) ∧
  (set_w_end v = Raise e → e = TypeError ∨ e = ValueError) ∧
  (set_broaden_poly v = Raise e → e = TypeError ∨ e = ValueError) ∧
  (set_curvefit v = Raise e → e = TypeError ∨ e = ValueError).
Proof.
  unfold set_data, set_w_start, set_w_end, set_broaden_poly, set_curvefit,
    check_type_ndarray.
  repeat split; destruct v; setter_error.
Qed.

Lemma shape0_differs_returns {A B : Type} (a : ndarray A) (b : ndarray B)
    (n m : nat) (sa sb : list nat) (e : exn) :
  shape a = n :: sa → shape b = m :: sb → shape0_differs a b ≠ Raise e.
Proof.
  intros Ha Hb. unfold shape0_differs, shape_at. rewrite Ha, Hb. discriminate.
Qed.

(** Reading a dataset and running its setter. *)
Lemma read_Raise {A : Type} (group : gmap string npvalue) (name : string)
    (set : npvalue → result A) (e : exn) :
  (∀ v, set v = Raise e → e = TypeError ∨ e = ValueError) →
  dataset group name ≫= set = Raise e →
  e = KeyError ∨ e = TypeError ∨ e = ValueError.
Proof.
  intros Hset H. apply bind_Raise in H as [H | (v & _ & H)].
  - left. exact (dataset_Raise _ _ _ H).
  - right. exact (Hset v H).
Qed.

(** X8. The exceptions of [from_hdf5]: on a group it raises nothing but
    [KeyError] (a dataset is missing), [TypeError] (a value of the wrong
    kind) and [ValueError] (a wrong rank, length or sign, or fewer than
    three curvefit terms); on a file name also [OSError] (no such file)
    and [IndexError] (an empty version array). *)
Theorem from_hdf5_exceptions (fs : gmap string h5file)
    (arg : group_or_filename) (e : exn) :
  from_hdf5 fs arg = Raise e →
  (e = KeyError ∨ e = TypeError ∨ e = ValueError) ∨
  ((e = OSError ∨ e = IndexError) ∧ ∃ path, arg = Filename path).
Proof.
  unfold from_hdf5. intros H.
  apply bind_Raise in H as [H | (group & _ & H)].
  { destruct arg as [g|path]; [discriminate|]. unfold open_group in H.
    destruct (fs !! path) as [h5|];
      [|injection H as <-; right; split; [left; reflexivity | eauto]].
    unfold read_version in H.
    destruct (version h5) as [[s|[|s l]]|]; simpl in H.
    - case_decide; [injection H as <-; auto|].
      destruct (nuclide h5); [discriminate | injection H as <-; auto].
    - injection H as <-. right; split; [right; reflexivity | eauto].
    - case_decide; [injection H as <-; auto|].
      destruct (nuclide h5); [discriminate | injection H as <-; auto].
    - injection H as <-; auto. }
  left.
  pose proof (λ v, proj1 (scalar_setter_Raise v e)) as E1.
  pose proof (λ v, proj1 (proj2 (scalar_setter_Raise v e))) as E2.
  pose proof (λ v, proj1 (proj2 (proj2 (scalar_setter_Raise v e)))) as E3.
  pose proof (λ v, proj2 (proj2 (proj2 (scalar_setter_Raise v e)))) as E4.
  pose proof (λ v, proj1 (array_setter_Raise v e)) as E5.
  pose proof (λ v, proj1 (proj2 (array_setter_Raise v e))) as E6.
  pose proof (λ v, proj1 (proj2 (proj2 (array_setter_Raise v e)))) as E7.
  pose proof (λ v, proj1 (proj2 (proj2 (proj2 (array_setter_Raise v e))))) as E8.
  pose proof (λ v, proj2 (proj2 (proj2 (proj2 (array_setter_Raise v e))))) as E9.
  apply bind_Raise in H as [H | (x1 & _ & H)]; [exact (read_Raise _ _ _ _ E1 H)|].
  apply bind_Raise in H as [H | (x2 & _ & H)]; [exact (read_Raise _ _ _ _ E2 H)|].
  apply bind_Raise in H as [H | (x3 & _ & H)]; [exact (read_Raise _ _ _ _ E3 H)|].
  apply bind_Raise in H as [H | (x4 & _ & H)]; [exact (read_Raise _ _ _ _ E4 H)|].
  apply bind_Raise in H as [H | (x5 & _ & H)]; [exact (read_Raise _ _ _ _ E5 H)|].
  apply bind_Raise in H as [H | (x6 & H6 & H)]; [exact (read_Raise _ _ _ _ E6 H)|].
  apply bind_Raise in H as [H | (x7 & H7 & H)]; [exact (read_Raise _ _ _ _ E7 H)|].
  apply bind_Ok in H6 as (v6 & _ & H6). apply set_w_start_Ok in H6 as (_ & nw & S6).
  apply bind_Ok in H7 as (v7 & _ & H7). apply set_w_end_Ok in H7 as (_ & nw' & S7).
  apply bind_Raise in H as [H | ([] & _ & H)];
    [exfalso; exact (shape0_differs_returns _ _ _ _ _ _ _ S7 S6 H)
    |injection H as <-; auto|].
  apply bind_Raise in H as [H | (x8 & H8 & H)].
  { apply bind_Raise in H as [H | (v8 & _ & H)].
    - left. exact (dataset_Raise _ _ _ H).
    - right. exact (E8 _ H). }
  apply bind_Ok in H8 as (v8 & _ & H8).
  apply set_broaden_poly_Ok in H8 as (_ & nw'' & S8).
  apply bind_Raise in H as [H | ([] & _ & H)];
    [exfalso; exact (shape0_differs_returns _ _ _ _ _ _ _ S8 S6 H)
    |injection H as <-; auto|].
  apply bind_Raise in H as [H | (x9 & H9 & H)]; [exact (read_Raise _ _ _ _ E9 H)|].
  apply bind_Ok in H9 as (v9 & _ & H9).
  apply set_curvefit_Ok in H9 as (_ & n0 & n1 & n2 & S9 & _).
  apply bind_Raise in H as [H | ([] & _ & H)];
    [exfalso; exact (shape0_differs_returns _ _ _ _ _ _ _ S9 S6 H)
    |injection H as <-; auto|].
  apply bind_Raise in H as [H | (order & _ & H)].
  { unfold fit_order, shape_at in H. cbn [curvefit] in H. rewrite S9 in H.
    discriminate. }
  case_decide; [injection H as <-; auto | discriminate].
Qed.

Lemma from_hdf5_exceptions_witness :
  (OSError = KeyError ∨ OSError = TypeError ∨ OSError = ValueError) ∨
  ((OSError = OSError ∨ OSError = IndexError) ∧
   ∃ path, Filename "none.h5" = Filename path).
Proof.
  apply (from_hdf5_exceptions sample_fs (Filename "none.h5") OSError).
  reflexivity.
Defined.

(** ** Objects *)

Lemma attribute_inj (p q : property) : attribute p = attribute q → p = q.
Proof. destruct p, q; simpl; intros H; try reflexivity; discriminate H. Qed.

Lemma attribute_not_l_value (p : property) : attribute p ≠ "_l_value".
Proof. destruct p; discriminate. Qed.

Lemma setter_Ok (p : property) (self self' : gmap string (option npvalue))
    (value : option npvalue) :
  setter p self value = Ok self' →
  self' = <[attribute p := value]> self ∧
  ∀ v, value = Some v → setter_checks p v = Ok ().
Proof.
  unfold setter. destruct value as [v|].
  - intros H. apply bind_Ok in H as ([] & Hc & [= <-]).
    split; [reflexivity|]. intros w [= <-]. exact Hc.
  - intros [= <-]. split; [reflexivity | discriminate].
Qed.

Lemma init_attributes (self : gmap string (option npvalue)) :
  __init__ = Ok self →
  self !! "_l_value" = None ∧ ∀ p, self !! attribute p = Some None.
Proof.
  intros [= <-]. split; [reflexivity|]. intros []; reflexivity.
Qed.

(** X9. [l_value] has a getter and no setter, and [__init__] does not set
    [_l_value]: on every object made by the constructor and the setters,
    reading [l_value] raises [AttributeError]. *)
Theorem l_value_raises (self : gmap string (option npvalue)) :
  reachable self → l_value self = AttributeError.
Proof.
  intros Hreach. unfold l_value, getattr.
  assert (self !! "_l_value" = None) as ->; [|reflexivity].
  induction Hreach as [self Hinit | self p value self' _ IH Hset].
  - apply init_attributes, Hinit.
  - apply setter_Ok in Hset as [-> _].
    rewrite lookup_insert_ne by apply attribute_not_l_value. exact IH.
Qed.

Lemma l_value_raises_witness :
  ∃ self self',
    __init__ = Ok self ∧
    setter p_spacing self (Some (NpFloat 1)) = Ok self' ∧
    l_value self' = AttributeError.
Proof.
  assert (setter_checks p_spacing (NpFloat 1) = Ok ()) as Hc.
  { unfold setter_checks.
    rewrite (proj1 (set_positive_float 1 ltac:(lra))). reflexivity. }
  do 2 eexists. split; [reflexivity|].
  assert (∀ self, setter p_spacing self (Some (NpFloat 1))
                  = Ok (<[attribute p_spacing := Some (NpFloat 1)]> self)) as Hset.
  { intros self. unfold setter. rewrite Hc. reflexivity. }
  split; [apply Hset|].
  apply l_value_raises.
  eapply reachable_setter; [apply reachable_init; reflexivity | apply Hset].
Defined.

(** X10. The invariant of the class: on every object made by the
    constructor and the setters, each of the nine properties is set, and
    its value is [None] or a value that passes the checks of its setter
    (for [spacing], a real scalar greater than 0, and so on). *)
Theorem reachable_invariant (self : gmap string (option npvalue))
    (p : property) :
  reachable self →
  ∃ value, getter p self = Attr value ∧
           ∀ v, value = Some v → setter_checks p v = Ok ().
Proof.
  intros Hreach. unfold getter, getattr.
  induction Hreach as [self Hinit | self q value self' _ IH Hset].
  - apply init_attributes in Hinit as [_ Hinit]. rewrite Hinit.
    exists None. split; [reflexivity | discriminate].
  - apply setter_Ok in Hset as [-> Hchecks].
    destruct (decide (attribute q = attribute p)) as [Heq|Hne].
    + apply attribute_inj in Heq as ->.
      rewrite lookup_insert_eq. exists value. split; [reflexivity | exact Hchecks].
    + rewrite lookup_insert_ne by exact Hne. exact IH.
Qed.

Lemma reachable_invariant_witness :
  ∃ self value,
    __init__ = Ok self ∧ getter p_curvefit self = Attr value ∧
    ∀ v, value = Some v → setter_checks p_curvefit v = Ok ().
Proof.
  eexists.
  destruct (reachable_invariant _ p_curvefit (reachable_init _ eq_refl))
    as (value & Hget & Hchecks).
  exists value. split; [reflexivity|]. split; [exact Hget | exact Hchecks].
Defined.

(** A setter that returns stores the value it was given, so that the
    getter of the same property reads it back, and changes no other
    property; a value that fails the checks is not stored, the setter
    raises. *)
Theorem setter_getter (p : property) (self : gmap string (option npvalue))
    (value : option npvalue) :
  match setter p self value with
  | Ok self' =>
      getter p self' = Attr value ∧
      (∀ q, q ≠ p → getter q self' = getter q self) ∧
      l_value self' = l_value self
  | Raise e =>
      ∃ v, value = Some v ∧ setter_checks p v = Raise e
  end.
Proof.
  destruct (setter p self value) as [self'|e] eqn:Hset.
  - apply setter_Ok in Hset as [-> _]. unfold getter, l_value, getattr.
    rewrite lookup_insert_eq. split; [reflexivity|]. split.
    + intros q Hne.
      rewrite lookup_insert_ne by (intros Heq; apply Hne; symmetry; apply attribute_inj, Heq).
      reflexivity.
    + rewrite lookup_insert_ne by apply attribute_not_l_value. reflexivity.
  - unfold setter in Hset. destruct value as [v|]; [|discriminate].
    exists v. split; [reflexivity|].
    destruct (setter_checks p v) as [[]|e']; [discriminate|].
    run_in Hset. injection Hset as ->. reflexivity.
Qed.

(** ** The cross sections as sums *)

Lemma coefficient_getitem (t : WindowedMultipole) (i_window channel : Z)
    (i_poly : Z) (x : R) :
  (0 ≤ i_poly)%Z →
  getitem (curvefit t) [i_window; i_poly; channel] = Ok x →
  coefficient t i_window channel (Z.to_nat i_poly) = x.
Proof.
  intros Hp Hx. unfold coefficient. rewrite Z2Nat.id by exact Hp.
  rewrite Hx. reflexivity.
Qed.

Lemma pole_entry_getitem (t : WindowedMultipole) (i_pole column : Z) (x : C) :
  getitem (data t) [i_pole; column] = Ok x → pole_entry t i_pole column = x.
Proof. intros Hx. unfold pole_entry. rewrite Hx. reflexivity. Qed.

Section Sums.

Context (t : WindowedMultipole).
Context (Hvalid : valid_table t) (Hwf : wf_table t).
Context (Hchannels : n_columns t = 4%nat → n_channels t = 3%nat).

(** The state of the plain curvefit loop before turn [j]. *)
Let plain_state (i_window : Z) (sqrtE temp0 : R) (j : nat) : xs * R :=
  (sum_to (λ i, coefficient t i_window _FIT_T i * (temp0 * sqrtE ^ i)) j,
   sum_to (λ i, coefficient t i_window _FIT_A i * (temp0 * sqrtE ^ i)) j,
   if bool_decide (n_columns t = 4%nat)
   then sum_to (λ i, coefficient t i_window _FIT_F i * (temp0 * sqrtE ^ i)) j
   else 0,
   temp0 * sqrtE ^ j).

Lemma plain_loop_sum (i_window : Z) (sqrtE temp0 : R) :
  (0 ≤ i_window < Z.of_nat (n_windows t))%Z →
  ∃ st, for_each (plain_term t i_window sqrtE)
                 (py_range 0 (Z.of_nat (n_terms t) - 1 + 1)) (0, 0, 0, temp0)
        = Ok st ∧
        fst st = fst (plain_state i_window sqrtE temp0 (n_terms t)).
Proof.
  intros Hw.
  destruct (window_arrays_in_bounds t i_window Hvalid Hwf Hw) as (_ & _ & _ & Hcf).
  pose proof (n_channels_valid t Hvalid) as Hnc.
  unfold py_range.
  destruct (for_each_range (plain_term t i_window sqrtE)
              (λ k st, st = plain_state i_window sqrtE temp0 (Z.to_nat k))
              0 (Z.of_nat (n_terms t) - 1 + 1 - 0) (0, 0, 0, temp0))
    as (st & Hst & HP).
  - unfold plain_state; simpl. case_bool_decide; repeat f_equal; lra.
  - intros k st Hk ->.
    set (j := Z.to_nat k).
    replace (Z.to_nat (k + 1)) with (S j) by lia.
    unfold plain_term, plain_state at 1.
    destruct (Hcf k _FIT_T) as (ct & Hct); [lia | unfold _FIT_T; lia |].
    destruct (Hcf k _FIT_A) as (ca & Hca); [lia | unfold _FIT_A; lia |].
    rewrite Hct; run. rewrite Hca; run.
    rewrite (fissionable_valid t Hvalid); run.
    apply coefficient_getitem in Hct, Hca; try lia. fold j in Hct, Hca.
    case_bool_decide as Hfis.
    + destruct (Hcf k _FIT_F) as (cf & Hcf');
        [lia | unfold _FIT_F; rewrite (Hchannels Hfis); lia |].
      rewrite Hcf'; run. apply coefficient_getitem in Hcf'; try lia.
      fold j in Hcf'.
      eexists. split; [reflexivity|]. unfold plain_state.
      cbn [sum_to]. rewrite Hct, Hca, Hcf'. f_equal. simpl; ring.
    + run. eexists. split; [reflexivity|]. unfold plain_state.
      cbn [sum_to]. rewrite Hct, Hca. f_equal. simpl; ring.
  - exists st. split; [exact Hst|]. rewrite HP. do 2 f_equal. lia.
Qed.

Lemma broadened_loop_sum (i_window : Z) (bp : ndarray R) :
  (0 ≤ i_window < Z.of_nat (n_windows t))%Z →
  shape bp = [n_terms t] → length (buffer bp) = n_terms t →
  for_each (broadened_term t i_window bp)
           (py_range 0 (Z.of_nat (n_terms t) - 1 + 1)) (0, 0, 0)
  = Ok (sum_to (λ i, coefficient t i_window _FIT_T i
                     * default 0 (buffer bp !! i)) (n_terms t),
        sum_to (λ i, coefficient t i_window _FIT_A i
                     * default 0 (buffer bp !! i)) (n_terms t),
        if bool_decide (n_columns t = 4%nat)
        then sum_to (λ i, coefficient t i_window _FIT_F i
                          * default 0 (buffer bp !! i)) (n_terms t)
        else 0).
Proof.
  intros Hw Hsh Hlen.
  destruct (window_arrays_in_bounds t i_window Hvalid Hwf Hw) as (_ & _ & _ & Hcf).
  pose proof (n_channels_valid t Hvalid) as Hnc.
  unfold py_range.
  destruct (for_each_range (broadened_term t i_window bp)
              (λ k s, s =
                 (sum_to (λ i, coefficient t i_window _FIT_T i
                               * default 0 (buffer bp !! i)) (Z.to_nat k),
                  sum_to (λ i, coefficient t i_window _FIT_A i
                               * default 0 (buffer bp !! i)) (Z.to_nat k),
                  if bool_decide (n_columns t = 4%nat)
                  then sum_to (λ i, coefficient t i_window _FIT_F i
                                    * default 0 (buffer bp !! i)) (Z.to_nat k)
                  else 0))
              0 (Z.of_nat (n_terms t) - 1 + 1 - 0) (0, 0, 0))
    as (s & Hs & HP).
  - simpl. case_bool_decide; reflexivity.
  - intros k s Hk ->.
    set (j := Z.to_nat k).
    replace (Z.to_nat (k + 1)) with (S j) by lia.
    destruct (lookup_lt_is_Some_2 (buffer bp) j ltac:(lia)) as (b & Hb).
    assert (getitem bp [k] = Ok b) as Hbp
      by (apply (getitem_1d bp (n_terms t)); [exact Hsh | lia | exact Hb]).
    unfold broadened_term. rewrite Hbp.
    destruct (Hcf k _FIT_T) as (ct & Hct); [lia | unfold _FIT_T; lia |].
    destruct (Hcf k _FIT_A) as (ca & Hca); [lia | unfold _FIT_A; lia |].
    rewrite Hct; run. rewrite Hca; run.
    rewrite (fissionable_valid t Hvalid); run.
    apply coefficient_getitem in Hct, Hca; try lia. fold j in Hct, Hca.
    case_bool_decide as Hfis.
    + destruct (Hcf k _FIT_F) as (cf & Hcf');
        [lia | unfold _FIT_F; rewrite (Hchannels Hfis); lia |].
      rewrite Hcf'; run. apply coefficient_getitem in Hcf'; try lia.
      fold j in Hcf'.
      eexists. split; [reflexivity|].
      cbn [sum_to]. rewrite Hct, Hca, Hcf', Hb. reflexivity.
    + eexists. split; [reflexivity|].
      cbn [sum_to]. rewrite Hct, Hca, Hb. reflexivity.
  - rewrite Hs, HP.
    replace (Z.to_nat (0 + Z.max 0 (Z.of_nat (n_terms t) - 1 + 1 - 0)))
      with (n_terms t) by lia.
    reflexivity.
Qed.

Lemma pole_loop_sum (weight : C → C) (startw endw : Z) (sig : xs) :
  (∀ k, (startw ≤ k < endw)%Z → (0 ≤ k < Z.of_nat (n_poles t))%Z) →
  ∃ sig',
    for_each (λ sig i_pole,
                ea ← getitem (data t) [i_pole; _MP_EA];
                add_pole t (weight ea) sig i_pole)
             (py_range startw endw) sig = Ok sig' ∧
    let m := Z.to_nat (endw - startw) in
    sig'.1.1 = sig.1.1 + sum_to (pole_contribution t weight startw _MP_RT) m ∧
    sig'.1.2 = sig.1.2 + sum_to (pole_contribution t weight startw _MP_RA) m ∧
    sig'.2 = if bool_decide (n_columns t = 4%nat)
             then sig.2 + sum_to (pole_contribution t weight startw _MP_RF) m
             else sig.2.
Proof.
  intros Hrange.
  pose proof (n_columns_valid t Hvalid) as Hnc.
  destruct sig as [[s_t s_a] s_f]. unfold py_range.
  destruct (for_each_range
              (λ sig i_pole,
                 ea ← getitem (data t) [i_pole; _MP_EA];
                 add_pole t (weight ea) sig i_pole)
              (λ k s,
                 let j := Z.to_nat (k - startw) in
                 s.1.1 = s_t + sum_to (pole_contribution t weight startw _MP_RT) j ∧
                 s.1.2 = s_a + sum_to (pole_contribution t weight startw _MP_RA) j ∧
                 s.2 = if bool_decide (n_columns t = 4%nat)
                       then s_f + sum_to (pole_contribution t weight startw _MP_RF) j
                       else s_f)
              startw (endw - startw) (s_t, s_a, s_f))
    as (s & Hs & HP).
  - replace (startw - startw)%Z with 0%Z by lia. simpl.
    case_bool_decide; repeat split; lra.
  - intros k [[x_t x_a] x_f] Hk (Ht & Ha & Hf). simpl in Ht, Ha, Hf.
    set (j := Z.to_nat (k - startw)) in *.
    replace (Z.to_nat (k + 1 - startw)) with (S j) by lia.
    assert ((startw + Z.of_nat j)%Z = k) as Hkj by lia.
    assert (0 ≤ k < Z.of_nat (n_poles t))%Z as Hin by (apply Hrange; lia).
    destruct (data_in_bounds t k _MP_EA Hvalid Hwf Hin) as (ea & Hea);
      [unfold _MP_EA; lia|].
    destruct (data_in_bounds t k _MP_RT Hvalid Hwf Hin) as (rt & Hrt);
      [unfold _MP_RT; lia|].
    destruct (data_in_bounds t k _MP_RA Hvalid Hwf Hin) as (ra & Hra);
      [unfold _MP_RA; lia|].
    rewrite Hea; run. unfold add_pole. rewrite Hrt; run. rewrite Hra; run.
    rewrite (fissionable_valid t Hvalid); run.
    apply pole_entry_getitem in Hea, Hrt, Hra.
    case_bool_decide as Hfis.
    + destruct (data_in_bounds t k _MP_RF Hvalid Hwf Hin) as (rf & Hrf);
        [unfold _MP_RF; lia|].
      rewrite Hrf; run. apply pole_entry_getitem in Hrf.
      eexists. split; [reflexivity|]. cbn [sum_to fst snd].
      unfold pole_contribution at 2 4 6. rewrite Hkj, Hea, Hrt, Hra, Hrf.
      repeat split; lra.
    + eexists. split; [reflexivity|]. cbn [sum_to fst snd].
      unfold pole_contribution at 2 4. rewrite Hkj, Hea, Hrt, Hra.
      repeat split; lra.
  - exists s. split; [exact Hs|]. simpl.
    replace (startw + Z.max 0 (endw - startw) - startw)%Z
      with (Z.max 0 (endw - startw)) in HP by lia.
    replace (Z.to_nat (Z.max 0 (endw - startw)))
      with (Z.to_nat (endw - startw)) in HP by lia.
    exact HP.
Qed.

End Sums.

(** Inside the range, [_evaluate] is the curvefit sum followed by the pole
    sum of the located window. *)
Lemma evaluate_inside (erf : R → R) (wofz : C → C) (t : WindowedMultipole)
    (E T : R) (i_window ws we : Z) :
  start_E t <= E <= end_E t → 0 < E → 0 <= T →
  locate t (sqrt E) = Ok i_window →
  getitem (w_start t) [i_window] = Ok ws →
  getitem (w_end t) [i_window] = Ok we →
  _evaluate erf wofz t E T
  = (sig ← curvefit_sum erf t E (sqrt (K_BOLTZMANN * T)) (sqrt E) (1 / E)
             i_window;
     pole_sum wofz t E (sqrt (K_BOLTZMANN * T)) (sqrt E) (1 / E)
              (ws - 1) we sig).
Proof.
  intros Hin HE HT Hloc Hws Hwe. unfold _evaluate.
  destruct (Rlt_dec E (start_E t)); [lra|].
  destruct (Rlt_dec (end_E t) E); [lra|].
  rewrite (py_sqrt_Ok (K_BOLTZMANN * T)) by (pose proof K_BOLTZMANN_pos; nra); run.
  rewrite py_sqrt_Ok by lra; run.
  rewrite py_div_Ok by lra; run.
  rewrite Hloc; run. rewrite Hws; run. rewrite Hwe; run. reflexivity.
Qed.

Lemma xs_eq (s : xs) (a b c : R) :
  s.1.1 = a → s.1.2 = b → s.2 = c → s = (a, b, c).
Proof. destruct s as [[x y] z]; simpl; intros -> -> ->; reflexivity. Qed.

(** X11. The cross sections at 0 K, in closed form.  In a window of a
    loaded table, with the poles of the window within the table, [_evaluate]
    returns for each channel the curvefit polynomial
    [sum_i coefficient_i * E^-1 * sqrt(E)^i] plus the sum over the poles of
    the window of [Re(residue * (-1j / (ea - sqrt(E))) / E)]; the fission
    cross section is 0 when the poles carry no fission residue. *)
Theorem evaluate_0K_sums (erf : R → R) (wofz : C → C) (t : WindowedMultipole)
    (E : R) (i_window ws we : Z) :
  valid_table t → wf_table t →
  (n_columns t = 4%nat → n_channels t = 3%nat) →
  start_E t <= E <= end_E t → 0 < E →
  locate t (sqrt E) = Ok i_window →
  (i_window < Z.of_nat (n_windows t))%Z →
  getitem (w_start t) [i_window] = Ok ws →
  getitem (w_end t) [i_window] = Ok we →
  (∀ k, (ws - 1 ≤ k < we)%Z → (0 ≤ k < Z.of_nat (n_poles t))%Z) →
  _evaluate erf wofz t E 0
  = Ok (cross_sections t (plain_basis E) (asymptotic_weight E)
                       i_window (ws - 1) we).
Proof.
  intros Hvalid Hwf Hch Hin HE Hloc Hlast Hws Hwe Hpoles.
  destruct (locate_in_range t E (valid_spacing t Hvalid)
              (valid_start_E t Hvalid) (proj1 Hin)) as (i & Hi & H0 & _).
  rewrite Hloc in Hi; injection Hi as <-.
  rewrite (evaluate_inside erf wofz t E 0 i_window ws we) by (assumption || lra).
  rewrite Rmult_0_r, sqrt_0.
  unfold curvefit_sum, pole_sum.
  destruct (Req_dec_T 0 0) as [_|Hne]; [|contradiction]. run.
  destruct (fit_order_valid t Hvalid) as [-> _]. run.
  destruct (plain_loop_sum t Hvalid Hwf Hch i_window (sqrt E) (1 / E)
              (conj H0 Hlast)) as (st & -> & Hst). run.
  destruct (pole_loop_sum t Hvalid Hwf Hch (asymptotic_weight E) (ws - 1) we
              st.1 Hpoles) as (sig' & Hsig' & Ht & Ha & Hf).
  unfold asymptotic_weight in Hsig'. unfold pole_term_0K.
  rewrite Hsig'. f_equal. rewrite Hst in Ht, Ha, Hf. simpl in Ht, Ha, Hf.
  unfold cross_sections, plain_basis.
  apply xs_eq; [exact Ht | exact Ha |].
  rewrite Hf. case_bool_decide; reflexivity.
Qed.

Lemma one_window_locate_25 (a b c a' b' c' : R) :
  locate (one_window_table 1 9 a b c a' b' c') (sqrt 25) = Ok 0%Z.
Proof.
  rewrite locate_one_window by lra. f_equal.
  apply Zfloor_eq. rewrite sqrt_25, sqrt_1. simpl. lra.
Qed.

Lemma evaluate_0K_sums_witness :
  _evaluate erf0 wofz0 (one_window_table 1 9 1 2 3 4 5 6) 25 0
  = Ok (cross_sections (one_window_table 1 9 1 2 3 4 5 6) (plain_basis 25)
                       (asymptotic_weight 25) 0 (1 - 1) 0).
Proof.
  destruct (one_window_table_valid 1 9 1 2 3 4 5 6) as [Hv Hwf]; [lra | lra |].
  apply (evaluate_0K_sums erf0 wofz0 _ 25 0 1 0 Hv Hwf).
  - simpl. discriminate.
  - simpl. lra.
  - lra.
  - apply one_window_locate_25.
  - reflexivity.
  - reflexivity.
  - reflexivity.
  - intros k Hk. lia.
Defined.

(** X12. The cross sections at a temperature [T > 0], in closed form: for
    each channel the curvefit coefficients against the basis of the window,
    the factors of [_broaden_wmp_polynomials] if the window is flagged for
    broadening and the plain powers [E^-1 * sqrt(E)^i] otherwise, plus the
    sum over the poles of the window of
    [Re(residue * _faddeeva((sqrt(E) - ea) * dopp) * dopp / E * sqrt(pi))]
    with [dopp = sqrtAWR / sqrt(K_BOLTZMANN * T)]. *)
Theorem evaluate_T_sums (erf : R → R) (wofz : C → C) (t : WindowedMultipole)
    (E T : R) (i_window ws we : Z) (broaden : bool) :
  valid_table t → wf_table t →
  (n_columns t = 4%nat → n_channels t = 3%nat) →
  start_E t <= E <= end_E t → 0 < E → 0 < T →
  locate t (sqrt E) = Ok i_window →
  (i_window < Z.of_nat (n_windows t))%Z →
  getitem (w_start t) [i_window] = Ok ws →
  getitem (w_end t) [i_window] = Ok we →
  getitem (broaden_poly t) [i_window] = Ok broaden →
  (∀ k, (ws - 1 ≤ k < we)%Z → (0 ≤ k < Z.of_nat (n_poles t))%Z) →
  _evaluate erf wofz t E T
  = Ok (cross_sections t
          (if broaden then broadened_basis erf t E T else plain_basis E)
          (faddeeva_weight wofz t E T) i_window (ws - 1) we).
Proof.
  intros Hvalid Hwf Hch Hin HE HT Hloc Hlast Hws Hwe Hbp Hpoles.
  destruct (locate_in_range t E (valid_spacing t Hvalid)
              (valid_start_E t Hvalid) (proj1 Hin)) as (i & Hi & H0 & _).
  rewrite Hloc in Hi; injection Hi as <-.
  rewrite (evaluate_inside erf wofz t E T i_window ws we) by (assumption || lra).
  assert (0 < sqrt (K_BOLTZMANN * T)) as HkT.
  { apply sqrt_lt_R0. pose proof K_BOLTZMANN_pos. nra. }
  set (sqrtkT := sqrt (K_BOLTZMANN * T)) in *.
  assert (0 < sqrtAWR t / sqrtkT) as Hdopp.
  { apply Rdiv_lt_0_compat; [apply (valid_sqrtAWR t Hvalid) | exact HkT]. }
  unfold curvefit_sum, pole_sum.
  destruct (Req_dec_T sqrtkT 0) as [Hz|_]; [lra|]. rewrite Hbp; run.
  rewrite (py_div_Ok (sqrtAWR t) sqrtkT) by lra.
  assert (∀ sig : xs, ∃ sig',
    (dopp ← Ok (sqrtAWR t / sqrtkT);
     for_each (pole_term_T wofz t (sqrt E) (1 / E) dopp)
              (py_range (ws - 1) we) sig) = Ok sig' ∧
    sig'.1.1 = sig.1.1
      + sum_to (pole_contribution t (faddeeva_weight wofz t E T) (ws - 1) _MP_RT)
               (Z.to_nat (we - (ws - 1))) ∧
    sig'.1.2 = sig.1.2
      + sum_to (pole_contribution t (faddeeva_weight wofz t E T) (ws - 1) _MP_RA)
               (Z.to_nat (we - (ws - 1))) ∧
    sig'.2 = if bool_decide (n_columns t = 4%nat)
             then sig.2
               + sum_to (pole_contribution t (faddeeva_weight wofz t E T)
                           (ws - 1) _MP_RF) (Z.to_nat (we - (ws - 1)))
             else sig.2) as Hpole.
  { intros sig. run.
    destruct (pole_loop_sum t Hvalid Hwf Hch (faddeeva_weight wofz t E T)
                (ws - 1) we sig Hpoles) as (sig' & Hsig' & Hsums).
    exists sig'. split; [exact Hsig' | exact Hsums]. }
  destruct broaden.
  - run. destruct (fit_order_valid t Hvalid) as [-> Hnt]. run.
    destruct (broaden_wmp_polynomials_Ok erf E (sqrtAWR t / sqrtkT)
                (Z.of_nat (n_terms t) - 1 + 1) HE Hdopp ltac:(lia))
      as (bp & Hret & Hsh & Hlen & _).
    rewrite Hret; run.
    replace (Z.to_nat (Z.of_nat (n_terms t) - 1 + 1)) with (n_terms t) in * by lia.
    rewrite (broadened_loop_sum t Hvalid Hwf Hch i_window bp (conj H0 Hlast)
               Hsh Hlen); run.
    match goal with |- context [for_each _ _ ?s] =>
      destruct (Hpole s) as (sig' & Hsig' & Ht & Ha & Hf) end.
    run_in Hsig'. rewrite Hsig'. f_equal. simpl in Ht, Ha, Hf.
    unfold cross_sections, broadened_basis. fold sqrtkT. rewrite Hret.
    apply xs_eq; [exact Ht | exact Ha |].
    rewrite Hf. case_bool_decide; reflexivity.
  - run. destruct (fit_order_valid t Hvalid) as [-> _]. run.
    destruct (plain_loop_sum t Hvalid Hwf Hch i_window (sqrt E) (1 / E)
                (conj H0 Hlast)) as (st & -> & Hst). run.
    destruct (Hpole st.1) as (sig' & Hsig' & Ht & Ha & Hf).
    run_in Hsig'. rewrite Hsig'. f_equal.
    rewrite Hst in Ht, Ha, Hf. simpl in Ht, Ha, Hf.
    unfold cross_sections, plain_basis.
    apply xs_eq; [exact Ht | exact Ha |].
    rewrite Hf. case_bool_decide; reflexivity.
Qed.

Lemma evaluate_T_sums_witness :
  _evaluate erf0 wofz0 (one_window_table 1 9 1 2 3 4 5 6) 25 300
  = Ok (cross_sections (one_window_table 1 9 1 2 3 4 5 6) (plain_basis 25)
          (faddeeva_weight wofz0 (one_window_table 1 9 1 2 3 4 5 6) 25 300)
          0 (1 - 1) 0).
Proof.
  destruct (one_window_table_valid 1 9 1 2 3 4 5 6) as [Hv Hwf]; [lra | lra |].
  apply (evaluate_T_sums erf0 wofz0 _ 25 300 0 1 0 false Hv Hwf).
  - simpl. discriminate.
  - simpl. lra.
  - lra.
  - lra.
  - apply one_window_locate_25.
  - reflexivity.
  - reflexivity.
  - reflexivity.
  - reflexivity.
  - intros k Hk. lia.
Defined.

(** ** Windows that do not depend on the temperature *)

(** X13. In a window that is not flagged for broadening and holds no pole,
    the cross sections do not depend on the temperature: for every
    [T >= 0], [_evaluate] gives what it gives at 0 K. *)
Theorem evaluate_temperature_independent (erf : R → R) (wofz : C → C)
    (t : WindowedMultipole) (E T : R) (i_window ws we : Z) :
  0 <= T →
  locate t (sqrt E) = Ok i_window →
  getitem (broaden_poly t) [i_window] = Ok false →
  getitem (w_start t) [i_window] = Ok ws →
  getitem (w_end t) [i_window] = Ok we →
  (we ≤ ws - 1)%Z →
  _evaluate erf wofz t E T = _evaluate erf wofz t E 0.
Proof.
  intros HT Hloc Hbp Hws Hwe Hempty. unfold _evaluate.
  destruct (Rlt_dec E (start_E t)); [reflexivity|].
  destruct (Rlt_dec (end_E t) E); [reflexivity|].
  rewrite (py_sqrt_Ok (K_BOLTZMANN * T)) by (pose proof K_BOLTZMANN_pos; nra).
  rewrite sqrtkT_zero; run.
  unfold py_sqrt. destruct (Rlt_dec E 0); [reflexivity|]. run.
  destruct (py_div 1 E) as [invE|e]; [|reflexivity]. run.
  rewrite Hloc; run. rewrite Hws; run. rewrite Hwe; run.
  unfold curvefit_sum, pole_sum, py_range.
  rewrite (seqZ_nil (ws - 1)) by lia.
  destruct (Req_dec_T 0 0) as [_|Hne]; [|contradiction]. run.
  destruct (Req_dec_T (sqrt (K_BOLTZMANN * T)) 0) as [Hz|Hnz]; run;
    [reflexivity|].
  rewrite Hbp; run. rewrite py_div_Ok by exact Hnz; run. reflexivity.
Qed.

Lemma evaluate_temperature_independent_witness :
  _evaluate erf0 wofz0 (one_window_table 1 9 1 2 3 4 5 6) 25 300
  = _evaluate erf0 wofz0 (one_window_table 1 9 1 2 3 4 5 6) 25 0.
Proof.
  apply (evaluate_temperature_independent erf0 wofz0 _ 25 300 0 1 0).
  - lra.
  - apply one_window_locate_25.
  - reflexivity.
  - reflexivity.
  - reflexivity.
  - lia.
Defined.

(** ** A window that starts before the first pole *)

Lemma norm_index_wrap (n : nat) (i : Z) :
  (- Z.of_nat n ≤ i < 0)%Z → norm_index n i = norm_index n (Z.of_nat n + i).
Proof.
  intros Hi. unfold norm_index.
  rewrite (decide_False (P := (0 ≤ i < Z.of_nat n)%Z)) by lia.
  rewrite (decide_True (P := (- Z.of_nat n ≤ i < 0)%Z)) by lia.
  rewrite (decide_True (P := (0 ≤ Z.of_nat n + i < Z.of_nat n)%Z)) by lia.
  reflexivity.
Qed.

Lemma getitem_wrap {A : Type} (a : ndarray A) (n : nat) (sh : list nat)
    (i : Z) (idx : list Z) :
  shape a = n :: sh → (- Z.of_nat n ≤ i < 0)%Z →
  getitem a (i :: idx) = getitem a ((Z.of_nat n + i)%Z :: idx).
Proof.
  intros Hsh Hi. unfold getitem. rewrite Hsh. cbn [offset].
  rewrite (norm_index_wrap n i Hi). reflexivity.
Qed.

Lemma add_pole_wrap (t : WindowedMultipole) (c : C) (sig : xs) (n m : nat) :
  shape (data t) = [S n; m] →
  add_pole t c sig (-1) = add_pole t c sig (Z.of_nat n).
Proof.
  intros Hsh.
  assert (∀ column, getitem (data t) [(-1)%Z; column]
                    = getitem (data t) [Z.of_nat n; column]) as Hwrap.
  { intros column. rewrite (getitem_wrap (data t) (S n) [m]) by (auto; lia).
    do 3 f_equal. lia. }
  unfold add_pole. destruct sig as [[sig_t sig_a] sig_f].
  rewrite !Hwrap. reflexivity.
Qed.

Lemma pole_term_wrap (wofz : C → C) (t : WindowedMultipole)
    (E sqrtE invE dopp : R) (sig : xs) (n m : nat) :
  shape (data t) = [S n; m] →
  pole_term_0K t E sqrtE sig (-1) = pole_term_0K t E sqrtE sig (Z.of_nat n)
  ∧ pole_term_T wofz t sqrtE invE dopp sig (-1)
    = pole_term_T wofz t sqrtE invE dopp sig (Z.of_nat n).
Proof.
  intros Hsh.
  assert (getitem (data t) [(-1)%Z; _MP_EA]
          = getitem (data t) [Z.of_nat n; _MP_EA]) as Hwrap.
  { rewrite (getitem_wrap (data t) (S n) [m]) by (auto; lia).
    do 3 f_equal. lia. }
  unfold pole_term_0K, pole_term_T. rewrite Hwrap.
  split; destruct (getitem (data t) [Z.of_nat n; _MP_EA]); run;
    try reflexivity; apply (add_pole_wrap t _ sig n m Hsh).
Qed.

(** X14. A window whose [w_start] entry is 0 starts at the pole index -1,
    which numpy reads from the end: the pole sum of the window does not
    raise there, it is the term of the last pole of the table followed by
    the sum over the poles [0 .. endw - 1]. *)
Theorem pole_sum_from_minus_one (wofz : C → C) (t : WindowedMultipole)
    (E sqrtkT sqrtE invE : R) (endw : Z) (sig : xs) (n m : nat) :
  shape (data t) = [S n; m] → (0 ≤ endw)%Z →
  pole_sum wofz t E sqrtkT sqrtE invE (-1) endw sig
  = (sig' ← pole_sum wofz t E sqrtkT sqrtE invE
                     (Z.of_nat n) (Z.of_nat n + 1) sig;
     pole_sum wofz t E sqrtkT sqrtE invE 0 endw sig').
Proof.
  intros Hsh Hend.
  assert (py_range (-1) endw = (-1)%Z :: py_range 0 endw) as Hrange.
  { unfold py_range. rewrite seqZ_cons by lia. do 2 f_equal; lia. }
  assert (py_range (Z.of_nat n) (Z.of_nat n + 1) = [Z.of_nat n]) as Hone.
  { unfold py_range. replace (Z.of_nat n + 1 - Z.of_nat n)%Z with 1%Z by lia.
    reflexivity. }
  unfold pole_sum. rewrite Hrange, Hone.
  destruct (Req_dec_T sqrtkT 0) as [Hz|Hnz].
  - cbn [for_each].
    destruct (pole_term_wrap wofz t E sqrtE invE 0 sig n m Hsh) as [-> _].
    destruct (pole_term_0K t E sqrtE sig (Z.of_nat n)); reflexivity.
  - destruct (py_div (sqrtAWR t) sqrtkT) as [dopp|e]; [|reflexivity]. run.
    cbn [for_each].
    destruct (pole_term_wrap wofz t E sqrtE invE dopp sig n m Hsh) as [_ ->].
    destruct (pole_term_T wofz t sqrtE invE dopp sig (Z.of_nat n)); reflexivity.
Qed.

Lemma pole_sum_from_minus_one_witness :
  pole_sum wofz0 overrun_table 25 0 5 (1 / 25) (-1) 1 (0, 0, 0)
  = (sig' ← pole_sum wofz0 overrun_table 25 0 5 (1 / 25)
                     (Z.of_nat 0) (Z.of_nat 0 + 1) (0, 0, 0);
     pole_sum wofz0 overrun_table 25 0 5 (1 / 25) 0 1 sig').
Proof.
  apply (pole_sum_from_minus_one wofz0 overrun_table 25 0 5 (1 / 25) 1
           (0, 0, 0) 0 3).
  - reflexivity.
  - lia.
Defined.

(** ** The exact domain of the evaluation *)

Lemma for_each_Ok_body {A St : Type} (body : St → A → result St)
    (l : list A) (s s' : St) (x : A) :
  for_each body l s = Ok s' → x ∈ l → ∃ s1 s2, body s1 x = Ok s2.
Proof.
  revert s; induction l as [|y l IH]; intros s Hrun Hx.
  - inversion Hx.
  - simpl in Hrun. apply bind_Ok in Hrun as (s1 & Hbody & Hrest).
    apply elem_of_cons in Hx as [->|Hx]; [eauto | exact (IH s1 Hrest Hx)].
Qed.

Lemma py_sqrt_Ok_inv (x y : R) : py_sqrt x = Ok y → 0 <= x ∧ y = sqrt x.
Proof.
  unfold py_sqrt. destruct (Rlt_dec x 0); [discriminate|].
  intros [= <-]. split; [lra | reflexivity].
Qed.

Lemma py_div_Ok_inv (a b q : R) : py_div a b = Ok q → b ≠ 0.
Proof. unfold py_div. destruct (Req_dec_T b 0); [discriminate | auto]. Qed.

Lemma norm_index_Ok_range (n : nat) (i : Z) (k : nat) :
  norm_index n i = Ok k → (- Z.of_nat n ≤ i < Z.of_nat n)%Z.
Proof. unfold norm_index; repeat case_decide; intros [= <-]; lia. Qed.

Lemma offset_Ok_range (sh : list nat) (idx : list Z) (acc o : nat) :
  offset sh idx acc = Ok o →
  Forall2 (λ n i, - Z.of_nat n ≤ i < Z.of_nat n)%Z sh idx.
Proof.
  revert idx acc; induction sh as [|n sh IH]; intros [|i idx] acc; simpl;
    try discriminate.
  - constructor.
  - intros H; apply bind_Ok in H as (k & Hk & Ho). constructor.
    + exact (norm_index_Ok_range n i k Hk).
    + exact (IH idx _ Ho).
Qed.

(** An access that returns is within the bounds numpy accepts. *)
Lemma getitem_Ok_range {A : Type} (a : ndarray A) (idx : list Z) (x : A) :
  getitem a idx = Ok x →
  Forall2 (λ n i, - Z.of_nat n ≤ i < Z.of_nat n)%Z (shape a) idx.
Proof.
  unfold getitem. intros H; apply bind_Ok in H as (o & Ho & _).
  exact (offset_Ok_range _ _ _ _ Ho).
Qed.

Lemma fission_channel (t : WindowedMultipole) (i_window i_poly : Z) (x : R) :
  valid_table t →
  getitem (curvefit t) [i_window; i_poly; _FIT_F] = Ok x → n_channels t = 3%nat.
Proof.
  intros Hvalid Hget. pose proof (n_channels_valid t Hvalid) as Hnc.
  apply getitem_Ok_range in Hget. unfold n_channels in *.
  destruct (valid_windows t Hvalid) as (nw & nt & nc & _ & _ & _ & Hcf & _).
  rewrite Hcf in *. simpl in *.
  inversion Hget as [|? ? ? ? _ H1]; subst.
  inversion H1 as [|? ? ? ? _ H2]; subst.
  inversion H2 as [|? ? ? ? Hc _]; subst.
  unfold _FIT_F in Hc. lia.
Qed.

Lemma curvefit_sum_Ok_channels (erf : R → R) (t : WindowedMultipole)
    (E sqrtkT sqrtE invE : R) (i_window : Z) (sig : xs) :
  valid_table t →
  curvefit_sum erf t E sqrtkT sqrtE invE i_window = Ok sig →
  n_columns t = 4%nat → n_channels t = 3%nat.
Proof.
  intros Hvalid Hrun Hcols.
  destruct (fit_order_valid t Hvalid) as [Hfit Hnt].
  assert (0%Z ∈ py_range 0 (Z.of_nat (n_terms t) - 1 + 1)) as Hfirst
    by (unfold py_range; apply elem_of_seqZ; lia).
  assert (fissionable t = Ok true) as Hfis.
  { rewrite (fissionable_valid t Hvalid). rewrite bool_decide_eq_true_2; auto. }
  unfold curvefit_sum in Hrun.
  apply bind_Ok in Hrun as (broaden & _ & Hrun). destruct broaden.
  - apply bind_Ok in Hrun as (dopp & _ & Hrun).
    rewrite Hfit in Hrun; run_in Hrun.
    apply bind_Ok in Hrun as (bp & _ & Hrun).
    destruct (for_each_Ok_body _ _ _ _ 0%Z Hrun Hfirst)
      as ([[sig_t sig_a] sig_f] & s2 & Hbody).
    unfold broadened_term in Hbody.
    apply bind_Ok in Hbody as (ct & _ & Hbody).
    apply bind_Ok in Hbody as (bt & _ & Hbody).
    apply bind_Ok in Hbody as (ca & _ & Hbody).
    apply bind_Ok in Hbody as (ba & _ & Hbody).
    rewrite Hfis in Hbody; run_in Hbody.
    apply bind_Ok in Hbody as (cf & Hcf & _).
    exact (fission_channel t i_window 0 cf Hvalid Hcf).
  - rewrite Hfit in Hrun; run_in Hrun.
    apply bind_Ok in Hrun as (st & Hrun & _).
    destruct (for_each_Ok_body _ _ _ _ 0%Z Hrun Hfirst)
      as ([[[sig_t sig_a] sig_f] temp] & s2 & Hbody).
    unfold plain_term in Hbody.
    apply bind_Ok in Hbody as (ct & _ & Hbody).
    apply bind_Ok in Hbody as (ca & _ & Hbody).
    rewrite Hfis in Hbody; run_in Hbody.
    apply bind_Ok in Hbody as (sf & Hsf & _).
    apply bind_Ok in Hsf as (cf & Hcf & _).
    exact (fission_channel t i_window 0 cf Hvalid Hcf).
Qed.

Lemma pole_sum_Ok_range (wofz : C → C) (t : WindowedMultipole)
    (E sqrtkT sqrtE invE : R) (startw endw : Z) (sig sig' : xs) :
  pole_sum wofz t E sqrtkT sqrtE invE startw endw sig = Ok sig' →
  ∀ k, (startw ≤ k < endw)%Z →
       (- Z.of_nat (n_poles t) ≤ k < Z.of_nat (n_poles t))%Z.
Proof.
  intros Hrun k Hk.
  assert (k ∈ py_range startw endw) as Hin
    by (unfold py_range; apply elem_of_seqZ; lia).
  assert (∃ ea, getitem (data t) [k; _MP_EA] = Ok ea) as (ea & Hea).
  { unfold pole_sum in Hrun. destruct (Req_dec_T sqrtkT 0).
    - destruct (for_each_Ok_body _ _ _ _ k Hrun Hin) as (s1 & s2 & Hbody).
      unfold pole_term_0K in Hbody.
      apply bind_Ok in Hbody as (ea & Hea & _). eauto.
    - apply bind_Ok in Hrun as (dopp & _ & Hrun).
      destruct (for_each_Ok_body _ _ _ _ k Hrun Hin) as (s1 & s2 & Hbody).
      unfold pole_term_T in Hbody.
      apply bind_Ok in Hbody as (ea & Hea & _). eauto. }
  apply getitem_Ok_range in Hea. unfold n_poles.
  destruct (shape (data t)) as [|n sh]; inversion Hea; subst. simpl. assumption.
Qed.

(** Accesses to the poles within the bounds numpy accepts. *)
Lemma data_in_range (t : WindowedMultipole) (i_pole column : Z) :
  valid_table t → wf_table t →
  (- Z.of_nat (n_poles t) ≤ i_pole < Z.of_nat (n_poles t))%Z →
  (0 ≤ column < Z.of_nat (n_columns t))%Z →
  ∃ x, getitem (data t) [i_pole; column] = Ok x.
Proof.
  intros [_ _ _ _ (np & nc & Hdata & _) _] (Wd & _) Hi Hc.
  unfold n_poles, n_columns in *. rewrite Hdata in Hi, Hc; simpl in Hi, Hc.
  apply getitem_in_range; [exact Wd|]. rewrite Hdata. repeat constructor; lia.
Qed.

Lemma add_pole_in_range (t : WindowedMultipole) (c : C) (s : xs) (i_pole : Z) :
  valid_table t → wf_table t →
  (- Z.of_nat (n_poles t) ≤ i_pole < Z.of_nat (n_poles t))%Z →
  ∃ s', add_pole t c s i_pole = Ok s'.
Proof.
  intros Hvalid Hwf Hp. destruct s as [[sig_t sig_a] sig_f].
  pose proof (n_columns_valid t Hvalid) as Hnc.
  unfold add_pole.
  destruct (data_in_range t i_pole _MP_RT Hvalid Hwf Hp) as (rt & ->);
    [unfold _MP_RT; lia|]. run.
  destruct (data_in_range t i_pole _MP_RA Hvalid Hwf Hp) as (ra & ->);
    [unfold _MP_RA; lia|]. run.
  rewrite (fissionable_valid t Hvalid); run.
  case_bool_decide as Hfis; [|eauto].
  destruct (data_in_range t i_pole _MP_RF Hvalid Hwf Hp) as (rf & ->);
    [unfold _MP_RF; lia|]. run. eauto.
Qed.

Lemma pole_sum_in_range (wofz : C → C) (t : WindowedMultipole)
    (E sqrtkT sqrtE invE : R) (startw endw : Z) (sig : xs) :
  valid_table t → wf_table t →
  (∀ k, (startw ≤ k < endw)%Z →
        (- Z.of_nat (n_poles t) ≤ k < Z.of_nat (n_poles t))%Z) →
  ∃ sig', pole_sum wofz t E sqrtkT sqrtE invE startw endw sig = Ok sig'.
Proof.
  intros Hvalid Hwf Hrange.
  pose proof (n_columns_valid t Hvalid) as Hnc.
  unfold pole_sum, py_range. destruct (Req_dec_T sqrtkT 0) as [Hz|Hnz].
  - destruct (for_each_range (pole_term_0K t E sqrtE) (λ _ _, True)
                startw (endw - startw) sig I) as (s & -> & _); [|eauto].
    intros k s Hk _. unfold pole_term_0K.
    destruct (data_in_range t k _MP_EA Hvalid Hwf) as (ea & ->);
      [apply Hrange; lia | unfold _MP_EA; lia |]. run.
    destruct (add_pole_in_range t
                (Cdiv (Cdiv (Copp Cj) (Csub ea (RtoC sqrtE))) (RtoC E)) s k
                Hvalid Hwf) as (s' & ->); [apply Hrange; lia | eauto].
  - rewrite py_div_Ok by exact Hnz; run.
    destruct (for_each_range
                (pole_term_T wofz t sqrtE invE (sqrtAWR t / sqrtkT)) (λ _ _, True)
                startw (endw - startw) sig I) as (s & -> & _); [|eauto].
    intros k s Hk _. unfold pole_term_T.
    destruct (data_in_range t k _MP_EA Hvalid Hwf) as (ea & ->);
      [apply Hrange; lia | unfold _MP_EA; lia |]. run.
    match goal with |- context [add_pole t ?c s k] =>
      destruct (add_pole_in_range t c s k Hvalid Hwf) as (s' & ->);
        [apply Hrange; lia | eauto]
    end.
Qed.
